(** * Pila de Volta: the circuit animation engine

    A shallow embedding of the animation code of the [B1Circuit] component
    (the loop parameterisation [getXY], the per-frame integrator [animate],
    the battery state and its depletion interval, the pool of electrons
    released inside the battery and the field-line sampling), of what the
    component draws from that state, and of the state of the tutor panel
    [Docent] beside it, followed by the properties its specification states
    and by further properties of the code.

    Numbers.  A JavaScript [number] is modelled by an exact rational ([Q];
    every finite double is one): the properties below are the ones of exact
    arithmetic, rounding is not modelled.  Every literal of the source is a
    multiple of one half, so the sampled field lines, which only add and
    subtract such literals, are computed by the source exactly as they are
    here.  The two battery counters only ever hold integers (they start at
    75 and change by [max 0 (_ - 5)]) and are modelled by [Z]. *)

From Stdlib Require Import String Ascii.
From Stdlib Require Import QArith Qround Qabs ZArith List Bool Lia Lqa.
Import ListNotations.

Open Scope Q_scope.

(** ** JavaScript arithmetic on rationals *)

Module Js.

(** [a < b] as a boolean, as an [if] of the source tests it. *)
Definition ltb (a b : Q) : bool := negb (Qle_bool b a).

(** [a <= b] and [a >= b] as booleans. *)
Definition leb (a b : Q) : bool := Qle_bool a b.
Definition geb (a b : Q) : bool := Qle_bool b a.

(** Rounding toward zero, the integer quotient the [%] operator uses. *)
Definition trunc (q : Q) : Z := Z.quot (Qnum q) (Zpos (Qden q)).

(** [a % b]: the remainder of the truncated division; it has the sign of
    the dividend [a]. *)
Definition rem (a b : Q) : Q := a - b * inject_Z (trunc (a / b)).

End Js.

(** ** Constants *)

Definition RAIL_TOTAL_LENGTH : Q := 2040.
Definition ELECTRON_SPEED : Q := 20.
Definition ELECTROLYTE_DEPLETION_RATE : Z := 5.
Definition IONS_DEPLETION_RATE : Z := 5.

(** ** Path parameterisation *)

Inductive Segment : Type := Top | Right | Bottom | Left.

Module Point.
Record t : Type := mk { x : Q; y : Q; segment : Segment }.

(** Two points are the same when their coordinates are the same rationals
    and they lie on the same side of the loop. *)
Definition equiv (a b : t) : Prop :=
  x a == x b /\ y a == y b /\ segment a = segment b.
End Point.

(** The first two lines of [getXY]: [trackPos % RAIL_TOTAL_LENGTH], moved up
    by one length when it is negative.  The sum is exact here; in doubles
    it rounds to 2040 itself for a negative remainder of very small
    magnitude, a case that no position of the component reaches, as they
    are never negative. *)
Definition wrap (trackPos : Q) : Q :=
  let p := Js.rem trackPos RAIL_TOTAL_LENGTH in
  if Js.ltb p 0 then p + RAIL_TOTAL_LENGTH else p.

Definition getXY (trackPos transPos : Q) : Point.t :=
  let p := wrap trackPos in
  let s1 := 317.5 in
  let s2 := 385 in
  let s3 := 635 in
  let s4 := 385 in
  if Js.ltb p s1 then
    Point.mk (325 + p) (7.5 + transPos) Top
  else if Js.ltb p (s1 + s2) then
    Point.mk (642.5 - transPos) (7.5 + (p - s1)) Right
  else if Js.ltb p (s1 + s2 + s3) then
    Point.mk (642.5 - (p - (s1 + s2))) (392.5 - transPos) Bottom
  else if Js.ltb p (s1 + s2 + s3 + s4) then
    Point.mk (7.5 + transPos) (392.5 - (p - (s1 + s2 + s3))) Left
  else
    Point.mk (7.5 + (p - (s1 + s2 + s3 + s4))) (7.5 + transPos) Top.

(** ** Field lines *)

Definition Segment_eqb (a b : Segment) : bool :=
  match a, b with
  | Top, Top | Right, Right | Bottom, Bottom | Left, Left => true
  | _, _ => false
  end.

(** The test of the [continue] in [fieldLinesGenerated]: the sample lies on
    the top side, under the battery. *)
Definition overlapsBattery (pos : Point.t) : bool :=
  Segment_eqb (Point.segment pos) Top
  && Js.geb (Point.x pos) 250 && Js.leb (Point.x pos) 400.

(** The [for (let p = 0; p < RAIL_TOTAL_LENGTH; p += 40)] loop, from the
    value [p] of its counter and the [lines] pushed so far.  [None] when
    [fuel] iterations do not reach the end of the loop. *)
Fixpoint fieldLinesLoop (fuel : nat) (p : Q) (lines : list Point.t)
  : option (list Point.t) :=
  match fuel with
  | O => None
  | S fuel' =>
      if Js.ltb p RAIL_TOTAL_LENGTH then
        let pos := getXY p 0 in
        if overlapsBattery pos
        then fieldLinesLoop fuel' (p + 40) lines
        else fieldLinesLoop fuel' (p + 40) (lines ++ [pos])
      else Some lines
  end.

Definition fieldLinesGenerated : option (list Point.t) :=
  fieldLinesLoop 100 0 [].

(** ** Battery *)

(** The four [useState] cells of the battery.  [isOpen] is the source's
    name for "the switch has been pressed": the circuit conducts when
    [isOpen] is [true]. *)
Module Battery.
Record t : Type := mk {
  isOpen : bool;
  isDepleted : bool;
  electrolyteH : Z;
  ionsCount : Z
}.
End Battery.

Definition initialBattery : Battery.t := Battery.mk false false 75 75.

Definition resetBattery (b : Battery.t) : Battery.t :=
  Battery.mk false false 75 75.

Definition handleToggle (b : Battery.t) : Battery.t :=
  if Battery.isDepleted b then resetBattery b
  else Battery.mk (negb (Battery.isOpen b)) (Battery.isDepleted b)
         (Battery.electrolyteH b) (Battery.ionsCount b).

(** The condition [isOpen && !isDepleted] under which the effects install
    their intervals and [animate] moves the electrons. *)
Definition conducting (b : Battery.t) : bool :=
  Battery.isOpen b && negb (Battery.isDepleted b).

(** The callback of the one-second interval. *)
Definition depletionTick (b : Battery.t) : Battery.t :=
  let newH := Z.max 0 (Battery.electrolyteH b - ELECTROLYTE_DEPLETION_RATE) in
  Battery.mk
    (Battery.isOpen b)
    (if (newH =? 0)%Z then true else Battery.isDepleted b)
    newH
    (Z.max 0 (Battery.ionsCount b - IONS_DEPLETION_RATE)).

(** One second of the depletion effect: the interval exists, and fires,
    only while the battery is [conducting]; otherwise it has been cleared. *)
Definition elapseSecond (b : Battery.t) : Battery.t :=
  if conducting b then depletionTick b else b.

(** What can happen to the battery: a click on the button, or a firing of
    the interval while it is installed. *)
Inductive step : Battery.t -> Battery.t -> Prop :=
| step_toggle b : step b (handleToggle b)
| step_reset b : step b (resetBattery b)
| step_tick b : conducting b = true -> step b (depletionTick b).

Inductive reachable : Battery.t -> Prop :=
| reachable_initial : reachable initialBattery
| reachable_step b b' : reachable b -> step b b' -> reachable b'.

(** ** Electrons of the conductor *)

Module Electron.
Record t : Type := mk {
  id : Z;
  trackPos : Q;
  transPos : Q;
  vibeDelay : Q;
  vibeDuration : Q
}.
End Electron.

(** The electron number [i] of the initial array, from the four values
    [Math.random()] returns for it. *)
Definition newElectron (i : Z) (r1 r2 r3 r4 : Q) : Electron.t :=
  Electron.mk i (r1 * RAIL_TOTAL_LENGTH) (r2 * 15 - 7.5) (r3 * -2)
    (0.3 + r4 * 0.4).

(** The update of one electron by [animate]. *)
Definition advance (deltaTime : Q) (e : Electron.t) : Electron.t :=
  Electron.mk
    (Electron.id e)
    (Js.rem (Electron.trackPos e + ELECTRON_SPEED * deltaTime)
       RAIL_TOTAL_LENGTH)
    (Electron.transPos e)
    (Electron.vibeDelay e)
    (Electron.vibeDuration e).

(** ** Electrons released inside the battery *)

Module BatElectron.
Record t : Type := mk { x : Q; y : Q; id : Q; start : Q }.
End BatElectron.

Module Style.
Record t : Type := mk { left : Q; top : Q; opacity : Q }.
End Style.

(** The callback of the 200 ms interval, from the three random values and
    the value of [Date.now()]. *)
Definition spawnBatElectron (id rx ry now : Q) (prev : list BatElectron.t)
  : list BatElectron.t :=
  prev ++ [BatElectron.mk (350 + rx * 50) (ry * 75) id now].

(** The callback of the [setTimeout] that removes the entry [id]. *)
Definition removeBatElectron (id : Q) (prev : list BatElectron.t)
  : list BatElectron.t :=
  filter (fun e => negb (Qeq_bool (BatElectron.id e) id)) prev.

Definition progress (now : Q) (be : BatElectron.t) : Q :=
  (now - BatElectron.start be) / 1000.

(** The style of the dot drawn for [be] when [Date.now()] is [now]. *)
Definition renderBatElectron (now : Q) (be : BatElectron.t) : Style.t :=
  let progress := progress now be in
  let currX :=
    BatElectron.x be - 350 + (50 - (BatElectron.x be - 350)) * progress in
  let currY := BatElectron.y be + (37.5 - BatElectron.y be) * progress in
  Style.mk currX currY (1 - progress).

(** ** The component *)

Module Circuit.
Record t : Type := mk {
  battery : Battery.t;
  electrons : list Electron.t;
  lastTimeRef : option Q;
  batElectrons : list BatElectron.t
}.
End Circuit.

(** The value of [lastTimeRef.current] in a subtraction: the ref starts as
    [null], which counts as [0]. *)
Definition refNumber (r : option Q) : Q :=
  match r with Some t => t | None => 0 end.

(** One animation frame at the timestamp [time].  The ref is [null] or a
    number, never [undefined], so the test
    [lastTimeRef.current !== undefined] always passes. *)
Definition animate (c : Circuit.t) (time : Q) : Circuit.t :=
  let deltaTime := (time - refNumber (Circuit.lastTimeRef c)) / 1000 in
  let electrons :=
    if conducting (Circuit.battery c)
    then map (advance deltaTime) (Circuit.electrons c)
    else Circuit.electrons c in
  Circuit.mk (Circuit.battery c) electrons (Some time)
    (Circuit.batElectrons c).

(** The dots of the released electrons drawn by a render at [now]. *)
Definition renderBatElectrons (now : Q) (c : Circuit.t) : list Style.t :=
  map (renderBatElectron now) (Circuit.batElectrons c).

(** Frame timestamps, none earlier than the one before it; [t0] is the
    timestamp of the frame before the first of [ts]. *)
Fixpoint frames (t0 : Q) (ts : list Q) : Prop :=
  match ts with
  | [] => True
  | t :: ts' => t0 <= t /\ frames t ts'
  end.

(** ** Vocabulary of the properties *)

(** The 51 arc lengths [0, 40, ..., 2000]. *)
Definition fieldLineCandidates : list Q :=
  map (fun k => inject_Z (40 * Z.of_nat k)) (seq 0 51).

(** [e'] is [e] carried [seconds] seconds along the loop at
    [ELECTRON_SPEED], and otherwise the same electron. *)
Definition moved (seconds : Q) (e e' : Electron.t) : Prop :=
  Electron.trackPos e' ==
    wrap (Electron.trackPos e + ELECTRON_SPEED * seconds) /\
  Electron.transPos e' = Electron.transPos e /\
  Electron.id e' = Electron.id e /\
  Electron.vibeDelay e' = Electron.vibeDelay e /\
  Electron.vibeDuration e' = Electron.vibeDuration e.

(** The track position of an electron is a point of the loop. *)
Definition onTrack (e : Electron.t) : Prop :=
  0 <= Electron.trackPos e /\ Electron.trackPos e < RAIL_TOTAL_LENGTH.

(** The battery with the circuit closed and the full charge. *)
Definition closedFull : Battery.t := Battery.mk true false 75 75.

(** The battery with the circuit closed and nothing left. *)
Definition closedExhausted : Battery.t := Battery.mk true true 0 0.

(** A circuit with the switch pressed, one electron ten units before the
    end of the loop, and the last frame drawn at timestamp 0. *)
Definition sampleCircuit : Circuit.t :=
  Circuit.mk closedFull [Electron.mk 0 2030 (-3) (-1) 0.5] (Some 0) [].

(** The same circuit with the switch released. *)
Definition sampleOpenCircuit : Circuit.t :=
  Circuit.mk initialBattery [Electron.mk 0 2030 (-3) (-1) 0.5] (Some 0) [].

(** An electron released at time 0 and still in the pool: the timeout that
    removes it has not run yet. *)
Definition lateEntry : BatElectron.t :=
  BatElectron.mk (350 + 0.2 * 50) (0.4 * 75) 0.5 0.

Definition lateCircuit : Circuit.t :=
  Circuit.mk closedFull [] (Some 0) (spawnBatElectron 0.5 0.2 0.4 0 []).

(** ** Drawing the conductor *)

Definition OUTER_WIDTH : Q := 650.
Definition OUTER_HEIGHT : Q := 400.
Definition BATTERY_WIDTH : Q := 150.
Definition CONDUCTOR_WIDTH : Q := 15.
Definition NUM_ELECTRONS : nat := 1000.

(** The two tests that hide an electron drawn at [pos]. *)
Definition isUnderBattery (pos : Point.t) : bool :=
  Js.geb (Point.x pos) 250 && Js.leb (Point.x pos) 400
  && Js.geb (Point.y pos) (-30) && Js.leb (Point.y pos) 45.

Definition isUnderSwitch (isOpen : bool) (pos : Point.t) : bool :=
  negb isOpen && Js.ltb 400 (Point.x pos) && Js.ltb (Point.x pos) 430
  && Js.ltb (Point.y pos) 20.

(** The [div] drawn for an electron: its key, whether it carries the class
    [vibrating], its position and the two custom properties. *)
Module Dot.
Record t : Type := mk {
  key : Z;
  vibrating : bool;
  left : Q;
  top : Q;
  delay : Q;
  duration : Q
}.
End Dot.

(** The body of [electrons.map] in the render; [None] is the [null] an
    electron under the battery or under the switch is replaced by.  The
    class [vibrating] is given as in the version of the component that has
    the tutor panel beside it, [!isOpen || isDepleted]; the version
    without the panel tests [!isOpen] alone. *)
Definition renderElectron (b : Battery.t) (e : Electron.t) : option Dot.t :=
  let pos := getXY (Electron.trackPos e) (Electron.transPos e) in
  let isUnderBattery := isUnderBattery pos in
  let isUnderSwitch := isUnderSwitch (Battery.isOpen b) pos in
  if isUnderBattery || isUnderSwitch then None
  else
    let isVibrating := negb (Battery.isOpen b) || Battery.isDepleted b in
    Some (Dot.mk (Electron.id e) isVibrating (Point.x pos) (Point.y pos)
            (Electron.vibeDelay e) (Electron.vibeDuration e)).

(** The purple bar drawn for a field line. *)
Module Bar.
Record t : Type := mk { width : Q; height : Q; left : Q; top : Q }.
End Bar.

Definition renderFieldLine (f : Point.t) : Bar.t :=
  let isVert :=
    Segment_eqb (Point.segment f) Top || Segment_eqb (Point.segment f) Bottom
  in
  Bar.mk (if isVert then 2 else 60) (if isVert then 60 else 2)
    (Point.x f - (if isVert then 1 else 30))
    (Point.y f - (if isVert then 30 else 1)).

(** [(isOpen && !isDepleted) && fieldLinesGenerated.map(...)]: nothing is
    drawn unless the battery conducts. *)
Definition renderFieldLines (b : Battery.t) (lines : list Point.t)
  : list Bar.t :=
  if conducting b then map renderFieldLine lines else [].

Definition bulbColor (b : Battery.t) : string :=
  if conducting b then "#fbbf24"%string else "#d1d5db"%string.

(** The black rectangle of the switch is drawn when [!isOpen]. *)
Definition switchDrawn (b : Battery.t) : bool := negb (Battery.isOpen b).

(** The arc lengths at which a centred electron is under the battery: the
    last 75 units of the loop and the first 75. *)
Definition behindBattery (w : Q) : Prop := w <= 75 \/ 1965 <= w.

(** The arc lengths at which it is under the switch. *)
Definition behindSwitch (w : Q) : Prop := 75 < w /\ w < 105.

(** ** Drawing the battery *)

Module Ion.
Record t : Type := mk { x : Q; y : Q }.
End Ion.






(** The facts every reachable battery satisfies. *)
Definition sound (b : Battery.t) : Prop :=
  (0 <= Battery.electrolyteH b <= 75)%Z /\
  (exists k : Z, Battery.electrolyteH b = 5 * k)%Z /\
  Battery.isDepleted b = (Battery.electrolyteH b =? 0)%Z /\
  Battery.ionsCount b = Battery.electrolyteH b.

(** ** The component as a whole *)

(** What happens to the component: an animation frame at a timestamp, a
    click on the button, a firing of the one-second interval, a firing of
    the 200 ms interval (with the values of [Math.random()] and
    [Date.now()] it draws), and the timeout that removes a released
    electron. *)
Inductive Event : Type :=
| Frame (time : Q)
| Click
| Second
| Spawn (id rx ry now : Q)
| Expire (id : Q).

Definition withBattery (b : Battery.t) (c : Circuit.t) : Circuit.t :=
  Circuit.mk b (Circuit.electrons c) (Circuit.lastTimeRef c)
    (Circuit.batElectrons c).

Definition withBatElectrons (pool : list BatElectron.t) (c : Circuit.t)
  : Circuit.t :=
  Circuit.mk (Circuit.battery c) (Circuit.electrons c)
    (Circuit.lastTimeRef c) pool.

(** The two intervals exist only while the battery conducts; the frames,
    the button and the removal timeouts are always there. *)
Definition handle (c : Circuit.t) (ev : Event) : Circuit.t :=
  match ev with
  | Frame time => animate c time
  | Click => withBattery (handleToggle (Circuit.battery c)) c
  | Second => withBattery (elapseSecond (Circuit.battery c)) c
  | Spawn id rx ry now =>
      if conducting (Circuit.battery c)
      then withBatElectrons
             (spawnBatElectron id rx ry now (Circuit.batElectrons c)) c
      else c
  | Expire id =>
      withBatElectrons (removeBatElectron id (Circuit.batElectrons c)) c
  end.

(** The initial array of electrons, from the successive values of
    [Math.random()]: four for each electron. *)
Definition initialElectrons (random : nat -> Q) : list Electron.t :=
  map (fun i =>
         newElectron (Z.of_nat i) (random (4 * i)%nat)
           (random (4 * i + 1)%nat) (random (4 * i + 2)%nat)
           (random (4 * i + 3)%nat))
    (seq 0 NUM_ELECTRONS).

(** The component when it is mounted. *)
Definition initialCircuit (random : nat -> Q) : Circuit.t :=
  Circuit.mk initialBattery (initialElectrons random) None [].

(** The frame timestamps among [evs] do not go back, starting from [t0]. *)
Fixpoint clockOrdered (t0 : Q) (evs : list Event) : Prop :=
  match evs with
  | [] => True
  | Frame t :: evs' => t0 <= t /\ clockOrdered t evs'
  | _ :: evs' => clockOrdered t0 evs'
  end.

(** The time, in seconds, covered by the frames of [evs] that are drawn
    while the battery conducts; [b] is the battery and [t0] the timestamp
    of the last frame before [evs]. *)
Fixpoint conductingSeconds (b : Battery.t) (t0 : Q) (evs : list Event) : Q :=
  match evs with
  | [] => 0
  | Frame t :: evs' =>
      (if conducting b then (t - t0) / 1000 else 0)
      + conductingSeconds b t evs'
  | Click :: evs' => conductingSeconds (handleToggle b) t0 evs'
  | Second :: evs' => conductingSeconds (elapseSecond b) t0 evs'
  | _ :: evs' => conductingSeconds b t0 evs'
  end.

(** The part of the copper panel in which electrons are released. *)
Definition inReleaseRegion (be : BatElectron.t) : Prop :=
  350 <= BatElectron.x be /\ BatElectron.x be < 400 /\
  0 <= BatElectron.y be /\ BatElectron.y be < 75.

(** A sequence of events for the examples: a frame, a click that closes the
    circuit, a frame one second later, and a firing of the interval. *)
Definition sampleEvents : list Event :=
  [Frame 16; Click; Frame 1016; Second; Frame 1032].

(** ** The tutor panel *)

Inductive Role : Type := user | model.

Module Message.
Record t : Type := mk { role : Role; text : string }.
End Message.

(** The four [useState] cells of [Docent]. *)
Module Docent.
Record t : Type := mk {
  messages : list Message.t;
  inputValue : string;
  isPart2 : bool;
  isLoading : bool
}.
End Docent.

Definition greeting : string :=
  "Has construït una pila de Volta que genera el corrent elèctric que encén el LED. Disposes d’una representació animada. El teu repte és comprendre i explicar com funciona tot plegat. Comença observant i descrivint amb frases curtes els sis fets que es produeixen simultàniament. Després redacta una explicació general. Llegeix el vocabulari, pregunta el que vulguis."%string.

Definition connectionError : string :=
  "Error de connexió. Recorda que cal una clau d'API vàlida."%string.

Definition initialDocent : Docent.t :=
  Docent.mk [Message.mk model greeting] EmptyString false false.

(** What [handleSend] passes to the language model: the transcript and the
    part of the exercise named in the system instruction. *)
Module Request.
Record t : Type := mk { contents : list Message.t; isPart2 : bool }.
End Request.

(** How the awaited call ends: with the parsed JSON answer, or with an
    exception (no connection, no key, an answer that does not parse). *)
Inductive Reply : Type :=
| Answer (responseText : string) (allFactsIdentified isExplanationGood : bool)
| Failure.

Inductive TutorEvent : Type :=
| Typed (value : string)
| Enter
| Respond (r : Reply).

Section Tutor.

(** [String.prototype.trim]. *)
Variable trim : string -> string.

(** [handleSend] up to its [await]: [None] when it returns at once, and
    otherwise the state after the three setters together with the request
    sent. *)
Definition handleSendStart (d : Docent.t)
  : option (Docent.t * Request.t) :=
  if String.eqb (trim (Docent.inputValue d)) EmptyString || Docent.isLoading d
  then None
  else
    let userText := trim (Docent.inputValue d) in
    let newMessages :=
      Docent.messages d ++ [Message.mk user userText] in
    Some (Docent.mk newMessages EmptyString (Docent.isPart2 d) true,
          Request.mk newMessages (Docent.isPart2 d)).

(** [handleSend] after its [await], with the [newMessages] and [isPart2]
    its closure holds in [req], on the state [d] of that moment. *)
Definition handleSendFinish (req : Request.t) (r : Reply) (d : Docent.t)
  : Docent.t :=
  match r with
  | Answer responseText allFactsIdentified _ =>
      Docent.mk
        (Request.contents req ++ [Message.mk model responseText])
        (Docent.inputValue d)
        (if allFactsIdentified && negb (Request.isPart2 req)
         then true else Docent.isPart2 d)
        false
  | Failure =>
      Docent.mk
        (Request.contents req ++ [Message.mk model connectionError])
        (Docent.inputValue d)
        (Docent.isPart2 d)
        false
  end.

(** The panel and the request in flight, if any. *)
Definition tutorStep (st : Docent.t * option Request.t) (ev : TutorEvent)
  : Docent.t * option Request.t :=
  match ev with
  | Typed value =>
      (Docent.mk (Docent.messages (fst st)) value (Docent.isPart2 (fst st))
         (Docent.isLoading (fst st)),
       snd st)
  | Enter =>
      match handleSendStart (fst st) with
      | Some (d', req) => (d', Some req)
      | None => st
      end
  | Respond r =>
      match snd st with
      | Some req => (handleSendFinish req r (fst st), None)
      | None => st
      end
  end.

Definition tutorRun (evs : list TutorEvent)
  : Docent.t * option Request.t :=
  fold_left tutorStep evs (initialDocent, None).

Definition contextualInfo (d : Docent.t) : string :=
  if Docent.isPart2 d
  then "ara redacta una explicació general del funcionament del circuit usant el vocabulari correcte."%string
  else "descriu un o més dels sis fets que observes simultàniament a la simulació."%string.

End Tutor.

Definition otherRole (r : Role) : Role :=
  match r with user => model | model => user end.

(** The messages are by [next], then by the other party, and so on in
    turn. *)
Fixpoint alternates (next : Role) (ms : list Message.t) : Prop :=
  match ms with
  | [] => True
  | m :: ms' => Message.role m = next /\ alternates (otherRole next) ms'
  end.

(** What holds of the panel at any moment. *)
Definition tutorSound (st : Docent.t * option Request.t) : Prop :=
  alternates model (Docent.messages (fst st)) /\
  hd_error (Docent.messages (fst st)) = Some (Message.mk model greeting) /\
  Nat.even (length (Docent.messages (fst st))) = Docent.isLoading (fst st) /\
  Forall (fun m => Message.role m = user -> Message.text m <> EmptyString)
    (Docent.messages (fst st)) /\
  match snd st with
  | Some req =>
      Docent.isLoading (fst st) = true /\
      Request.contents req = Docent.messages (fst st) /\
      Request.isPart2 req = Docent.isPart2 (fst st)
  | None => Docent.isLoading (fst st) = false
  end.

(** [trim] on a string whose white space is made of blanks only. *)
Fixpoint dropBlanks (s : string) : string :=
  match s with
  | String " "%char s' => dropBlanks s'
  | _ => s
  end.

Fixpoint reverse (s acc : string) : string :=
  match s with
  | EmptyString => acc
  | String c s' => reverse s' (String c acc)
  end.

Definition trimBlanks (s : string) : string :=
  reverse (dropBlanks (reverse (dropBlanks s) EmptyString)) EmptyString.

(** The text and the verdict of a reply as [handleSend] uses them: an
    exception shows the connection error and identifies no fact. *)
Definition replyText (r : Reply) : string :=
  match r with
  | Answer responseText _ _ => responseText
  | Failure => connectionError
  end.

Definition replyAllFacts (r : Reply) : bool :=
  match r with
  | Answer _ allFactsIdentified _ => allFactsIdentified
  | Failure => false
  end.

(** The random values drawn by a firing of the 200 ms interval lie in
    [[0, 1)], as those of [Math.random()] do. *)
Definition drawsInUnit (ev : Event) : Prop :=
  match ev with
  | Spawn _ rx ry _ => 0 <= rx /\ rx < 1 /\ 0 <= ry /\ ry < 1
  | _ => True
  end.

(** ** The positions the specification gives *)

(** [a mod 2040], the floored modulo: the number of [[0, 2040)] that
    differs from [a] by a whole multiple of 2040. *)
Definition floorMod2040 (a : Q) : Q :=
  a - 2040 * inject_Z (Qfloor (a / 2040)).

(** The track position the specification gives to a particle that started
    at [initial] and has been carried for [seconds] seconds at 20 units per
    second. *)
Definition expectedPosition (initial seconds : Q) : Q :=
  floorMod2040 (initial + 20 * seconds).

(** [e'] is the electron [e] at the position the specification gives it
    after [seconds] seconds, with its other fields untouched. *)
Definition carried (seconds : Q) (e e' : Electron.t) : Prop :=
  Electron.trackPos e' == expectedPosition (Electron.trackPos e) seconds /\
  Electron.transPos e' = Electron.transPos e /\
  Electron.id e' = Electron.id e /\
  Electron.vibeDelay e' = Electron.vibeDelay e /\
  Electron.vibeDuration e' = Electron.vibeDuration e.

(** ** Arithmetic of [Js] *)

Lemma ltb_spec (a b : Q) : BoolSpec (a < b) (b <= a) (Js.ltb a b).
Proof.
  unfold Js.ltb. destruct (Qle_bool b a) eqn:E; simpl; constructor.
  - now apply Qle_bool_iff.
  - apply Qnot_le_lt. intros H. apply Qle_bool_iff in H. congruence.
Qed.

Lemma trunc_nonneg (q : Q) : 0 <= q -> Js.trunc q = Qfloor q.
Proof.
  destruct q as [n d]. unfold Qle, Js.trunc, Qfloor. simpl. intros H.
  apply Z.quot_div_nonneg; lia.
Qed.

Lemma trunc_nonpos (q : Q) : q <= 0 -> Js.trunc q = Qceiling q.
Proof.
  destruct q as [n d]. unfold Qle, Js.trunc, Qceiling, Qfloor. simpl. intros H.
  replace n with (- (- n))%Z at 1 by lia.
  rewrite Z.quot_opp_l by lia. f_equal.
  apply Z.quot_div_nonneg; lia.
Qed.

(** ** The wrap of [getXY] is the floored modulo *)

Lemma div_rail (p : Q) : p / RAIL_TOTAL_LENGTH * 2040 == p.
Proof. unfold RAIL_TOTAL_LENGTH. apply Qdiv_mult_l. discriminate. Qed.

Lemma floor_rail (p : Q) :
  let f := inject_Z (Qfloor (p / RAIL_TOTAL_LENGTH)) in
  2040 * f <= p /\ p < 2040 * f + 2040.
Proof.
  cbv zeta. pose proof (div_rail p) as D.
  pose proof (Qfloor_le (p / RAIL_TOTAL_LENGTH)) as Lo.
  pose proof (Qlt_floor (p / RAIL_TOTAL_LENGTH)) as Hi.
  rewrite inject_Z_plus in Hi. change (inject_Z 1) with 1 in Hi.
  set (q := p / RAIL_TOTAL_LENGTH) in *. clearbody q.
  set (f := inject_Z (Qfloor q)) in *. clearbody f.
  split; lra.
Qed.

Lemma wrap_floor (p : Q) :
  wrap p == p - 2040 * inject_Z (Qfloor (p / RAIL_TOTAL_LENGTH)).
Proof.
  pose proof (floor_rail p) as [Lo Hi]. cbv zeta in Lo, Hi.
  pose proof (div_rail p) as D.
  unfold wrap, Js.rem.
  set (q := p / RAIL_TOTAL_LENGTH) in *. clearbody q.
  destruct (Qlt_le_dec q 0) as [Neg | Pos].
  - rewrite trunc_nonpos by lra.
    pose proof (Qle_ceiling q) as Cu. pose proof (Qceiling_lt q) as Cl.
    pose proof (Qfloor_le q) as Fl. pose proof (Qlt_floor q) as Fu.
    assert (Qceiling q = Qfloor q \/ Qceiling q = (Qfloor q + 1)%Z) as [E | E].
    { assert (Qfloor q <= Qceiling q)%Z by (rewrite Zle_Qle; lra).
      assert (Qceiling q - 1 < Qfloor q + 1)%Z by (rewrite Zlt_Qlt; lra).
      lia. }
    + rewrite E in *. unfold RAIL_TOTAL_LENGTH.
      destruct (ltb_spec (p - 2040 * inject_Z (Qfloor q)) 0); lra.
    + rewrite E in *. rewrite inject_Z_plus in *.
      change (inject_Z 1) with 1 in *. unfold RAIL_TOTAL_LENGTH.
      destruct (ltb_spec (p - 2040 * (inject_Z (Qfloor q) + 1)) 0); lra.
  - rewrite trunc_nonneg by assumption. unfold RAIL_TOTAL_LENGTH.
    destruct (ltb_spec (p - 2040 * inject_Z (Qfloor q)) 0); lra.
Qed.

Lemma wrap_range (p : Q) : 0 <= wrap p /\ wrap p < 2040.
Proof.
  pose proof (floor_rail p) as [Lo Hi]. cbv zeta in Lo, Hi.
  rewrite wrap_floor. split; lra.
Qed.

(** Any way of writing [p] as a point of [[0, 2040)] plus a whole number of
    turns gives the wrap of [p]. *)
Lemma wrap_unique (p r : Q) (k : Z) :
  p == r + 2040 * inject_Z k -> 0 <= r -> r < 2040 -> wrap p == r.
Proof.
  intros E R0 R1. pose proof (floor_rail p) as [Lo Hi]. cbv zeta in Lo, Hi.
  rewrite wrap_floor.
  set (f := Qfloor (p / RAIL_TOTAL_LENGTH)) in *. clearbody f.
  assert (k = f) as ->.
  { assert (k < f + 1)%Z.
    { rewrite Zlt_Qlt, inject_Z_plus. change (inject_Z 1) with 1. lra. }
    assert (f < k + 1)%Z.
    { rewrite Zlt_Qlt, inject_Z_plus. change (inject_Z 1) with 1. lra. }
    lia. }
  lra.
Qed.

Lemma wrap_id (p : Q) : 0 <= p -> p < 2040 -> wrap p == p.
Proof.
  intros. apply (wrap_unique p p 0); trivial. change (inject_Z 0) with 0. lra.
Qed.

#[export] Instance wrap_comp : Proper (Qeq ==> Qeq) wrap.
Proof.
  intros p p' E. symmetry.
  destruct (wrap_range p) as [R0 R1].
  apply (wrap_unique p' (wrap p) (Qfloor (p / RAIL_TOTAL_LENGTH))); trivial.
  rewrite wrap_floor. lra.
Qed.

Lemma wrap_turns (p : Q) (k : Z) : wrap (p + 2040 * inject_Z k) == wrap p.
Proof.
  destruct (wrap_range p) as [R0 R1].
  apply (wrap_unique _ (wrap p) (Qfloor (p / RAIL_TOTAL_LENGTH) + k)); trivial.
  rewrite wrap_floor, inject_Z_plus. lra.
Qed.

(** On a dividend that is not negative, [%] alone is already the wrap. *)
Lemma rem_nonneg (a : Q) : 0 <= a -> Js.rem a RAIL_TOTAL_LENGTH == wrap a.
Proof.
  intros A. pose proof (floor_rail a) as [Lo Hi]. cbv zeta in Lo, Hi.
  pose proof (div_rail a) as D.
  rewrite wrap_floor. unfold Js.rem.
  rewrite trunc_nonneg by lra. unfold RAIL_TOTAL_LENGTH. lra.
Qed.

(** ** Facts about [getXY] *)

(** The branch [getXY] takes, read off the wrapped position. *)
Lemma getXY_cases (p t : Q) :
  let w := wrap p in
  (w < 317.5 /\ getXY p t = Point.mk (325 + w) (7.5 + t) Top) \/
  (317.5 <= w /\ w < 702.5 /\
     getXY p t = Point.mk (642.5 - t) (7.5 + (w - 317.5)) Right) \/
  (702.5 <= w /\ w < 1337.5 /\
     getXY p t = Point.mk (642.5 - (w - (317.5 + 385))) (392.5 - t) Bottom) \/
  (1337.5 <= w /\ w < 1722.5 /\
     getXY p t =
       Point.mk (7.5 + t) (392.5 - (w - (317.5 + 385 + 635))) Left) \/
  (1722.5 <= w /\
     getXY p t =
       Point.mk (7.5 + (w - (317.5 + 385 + 635 + 385))) (7.5 + t) Top).
Proof.
  intros w. unfold getXY. fold w. cbv zeta.
  destruct (ltb_spec w 317.5).
  { left. now split. }
  destruct (ltb_spec w (317.5 + 385)).
  { right; left. repeat split; trivial; lra. }
  destruct (ltb_spec w (317.5 + 385 + 635)).
  { right; right; left. repeat split; trivial; lra. }
  destruct (ltb_spec w (317.5 + 385 + 635 + 385)).
  { right; right; right; left. repeat split; trivial; lra. }
  right; right; right; right. split; trivial; lra.
Qed.

Local Ltac getXY_split p t :=
  let H := fresh "C" in
  let E := fresh "E" in
  destruct (getXY_cases p t)
    as [[H E] | [(? & H & E) | [(? & H & E) | [(? & H & E) | [H E]]]]];
  cbv zeta in *; rewrite E; clear E; cbn [Point.x Point.y Point.segment].

#[export] Instance getXY_comp : Proper (Qeq ==> Qeq ==> Point.equiv) getXY.
Proof.
  intros p p' Ep t t' Et. pose proof (wrap_comp p p' Ep) as Ew.
  unfold Point.equiv.
  getXY_split p t; getXY_split p' t';
    solve [ repeat split; lra | exfalso; lra ].
Qed.

(** One more turn of the loop leads to the same point, whatever the lateral
    offset. *)
Lemma getXY_turn (p t : Q) :
  Point.equiv (getXY (p + RAIL_TOTAL_LENGTH) t) (getXY p t).
Proof.
  assert (wrap (p + RAIL_TOTAL_LENGTH) == wrap p) as Ew.
  { rewrite <- (wrap_turns p 1). apply wrap_comp.
    unfold RAIL_TOTAL_LENGTH. change (inject_Z 1) with 1. lra. }
  unfold Point.equiv.
  getXY_split (p + RAIL_TOTAL_LENGTH) t; getXY_split p t;
    solve [ repeat split; lra | exfalso; lra ].
Qed.

(** The position along the loop, split into whole turns and the rest. *)
Lemma wrap_decompose (p : Q) :
  exists k : Z, p == wrap p + 2040 * inject_Z k.
Proof.
  exists (Qfloor (p / RAIL_TOTAL_LENGTH)). rewrite wrap_floor. lra.
Qed.

Lemma Z_order_Q (a b : Z) :
  inject_Z a == inject_Z b \/ inject_Z a + 1 <= inject_Z b \/
  inject_Z b + 1 <= inject_Z a.
Proof.
  change 1 with (inject_Z 1). rewrite <- !inject_Z_plus, <- !Zle_Qle.
  destruct (Z.lt_trichotomy a b) as [H | [H | H]].
  - right; left. lia.
  - left. now subst.
  - right; right. lia.
Qed.

(** With no lateral offset the point moves by at most the distance
    travelled along the loop, in each coordinate: [getXY] has no jump, at a
    corner or at the wrap point or anywhere else. *)
Lemma getXY_lipschitz (p q : Q) :
  Qabs (Point.x (getXY p 0) - Point.x (getXY q 0)) <= Qabs (p - q) /\
  Qabs (Point.y (getXY p 0) - Point.y (getXY q 0)) <= Qabs (p - q).
Proof.
  destruct (wrap_decompose p) as [kp Ep]. destruct (wrap_decompose q) as [kq Eq].
  destruct (wrap_range p) as [P0 P1]. destruct (wrap_range q) as [Q0 Q1].
  pose proof (Z_order_Q kp kq) as Ord.
  set (a := inject_Z kp) in *. set (b := inject_Z kq) in *.
  clearbody a b.
  rewrite !Qabs_Qle_condition.
  destruct (Qlt_le_dec (p - q) 0) as [S | S];
    [ rewrite (Qabs_neg (p - q)) by lra | rewrite (Qabs_pos (p - q)) by lra ];
    getXY_split p 0; getXY_split q 0;
    destruct Ord as [Ord | [Ord | Ord]];
    solve [ repeat split; lra | exfalso; lra ].
Qed.

(** ** Battery *)

Lemma depletionTick_levels (b : Battery.t) :
  Battery.electrolyteH (depletionTick b) =
    Z.max 0 (Battery.electrolyteH b - 5) /\
  Battery.ionsCount (depletionTick b) = Z.max 0 (Battery.ionsCount b - 5).
Proof. split; reflexivity. Qed.

(** Before the fifteenth tick the battery still conducts. *)
Lemma elapse_before (n : nat) :
  (n < 15)%nat ->
  Nat.iter n elapseSecond closedFull =
    Battery.mk true false (75 - 5 * Z.of_nat n) (75 - 5 * Z.of_nat n).
Proof.
  intros H.
  do 15 (destruct n as [| n]; [ reflexivity | ]).
  lia.
Qed.

(** From the fifteenth tick on nothing changes any more. *)
Lemma elapse_after (k : nat) :
  Nat.iter (15 + k) elapseSecond closedFull = closedExhausted.
Proof.
  induction k as [| k IH].
  - reflexivity.
  - replace (15 + S k)%nat with (S (15 + k)) by lia.
    rewrite Nat.iter_succ, IH. reflexivity.
Qed.

Lemma reachable_elapse (n : nat) (b : Battery.t) :
  reachable b -> reachable (Nat.iter n elapseSecond b).
Proof.
  intros R. induction n as [| n IH]; [ exact R | ].
  rewrite Nat.iter_succ. unfold elapseSecond at 1.
  destruct (conducting (Nat.iter n elapseSecond b)) eqn:E; [ | exact IH ].
  eapply reachable_step; [ exact IH | now apply step_tick ].
Qed.

Lemma reachable_closedExhausted : reachable closedExhausted.
Proof.
  change closedExhausted
    with (Nat.iter 15 elapseSecond (handleToggle initialBattery)).
  apply reachable_elapse.
  eapply reachable_step; [ apply reachable_initial | apply step_toggle ].
Qed.

Lemma step_keeps_levels_equal (b b' : Battery.t) :
  step b b' ->
  Battery.electrolyteH b = Battery.ionsCount b ->
  Battery.electrolyteH b' = Battery.ionsCount b'.
Proof.
  intros S E. destruct S as [b | b | b C].
  - unfold handleToggle. destruct (Battery.isDepleted b); simpl; trivial.
  - reflexivity.
  - unfold depletionTick, ELECTROLYTE_DEPLETION_RATE, IONS_DEPLETION_RATE.
    simpl. now rewrite E.
Qed.

(** C1 (as the code has it): on an exhausted battery the button does not
    leave the state alone, it recharges: [handleToggle] is [resetBattery],
    the state becomes open, not exhausted, with both levels at 75, and this
    state differs from the one before. *)
Theorem toggle_exhausted_resets (b : Battery.t) :
  Battery.isDepleted b = true ->
  handleToggle b = resetBattery b /\
  handleToggle b = Battery.mk false false 75 75 /\
  handleToggle b <> b.
Proof.
  intros D. unfold handleToggle. rewrite D. repeat split.
  intros E. rewrite <- E in D. discriminate D.
Qed.

Lemma toggle_exhausted_resets_witness :
  Battery.isDepleted closedExhausted = true /\
  handleToggle closedExhausted = Battery.mk false false 75 75.
Proof.
  split; [ reflexivity | ].
  apply (toggle_exhausted_resets closedExhausted). reflexivity.
Defined.

(** C1 (as stated) fails: the exhausted battery reached by closing the
    circuit and waiting fifteen seconds is changed by the button, in all
    four of its cells. *)
Lemma toggle_exhausted_changes_state :
  reachable closedExhausted /\
  Battery.isDepleted closedExhausted = true /\
  handleToggle closedExhausted <> closedExhausted /\
  Battery.isOpen (handleToggle closedExhausted) = false /\
  Battery.electrolyteH (handleToggle closedExhausted) = 75%Z /\
  Battery.ionsCount (handleToggle closedExhausted) = 75%Z /\
  Battery.isDepleted (handleToggle closedExhausted) = false.
Proof.
  split; [ apply reachable_closedExhausted | ].
  repeat split. discriminate.
Qed.

(** C2: every tick lowers both levels by 5 and clamps them at 0; from the
    full charge with the circuit closed, after [n] seconds both levels are
    [max 0 (75 - 5 n)], the battery is exhausted exactly from the fifteenth
    second on, and from then on the interval no longer fires: the state
    stays at the exhausted one. *)
Theorem depletion_fifteen_ticks :
  (forall b : Battery.t,
     Battery.electrolyteH (depletionTick b) =
       Z.max 0 (Battery.electrolyteH b - 5) /\
     Battery.ionsCount (depletionTick b) =
       Z.max 0 (Battery.ionsCount b - 5)) /\
  (forall n : nat,
     let b := Nat.iter n elapseSecond closedFull in
     Battery.electrolyteH b = Z.max 0 (75 - 5 * Z.of_nat n) /\
     Battery.ionsCount b = Z.max 0 (75 - 5 * Z.of_nat n) /\
     Battery.isOpen b = true /\
     Battery.isDepleted b = (15 <=? n)%nat /\
     conducting b = (n <? 15)%nat /\
     elapseSecond b = (if (n <? 15)%nat then depletionTick b else b)).
Proof.
  split; [ apply depletionTick_levels | ].
  intros n b. subst b.
  destruct (Nat.ltb_spec n 15) as [H | H].
  - rewrite elapse_before by assumption.
    do 15 (destruct n as [| n]; [ repeat split | ]).
    lia.
  - replace (Nat.iter n elapseSecond closedFull) with closedExhausted
      by (rewrite <- (elapse_after (n - 15)); f_equal; lia).
    replace (15 <=? n)%nat with true by (symmetry; apply Nat.leb_le; lia).
    replace (n <? 15)%nat with false by (symmetry; apply Nat.ltb_ge; lia).
    unfold closedExhausted.
    cbn [Battery.electrolyteH Battery.ionsCount Battery.isOpen
         Battery.isDepleted].
    repeat split; try reflexivity; lia.
Qed.

(** C6: [resetBattery] yields the open, full, not exhausted battery from
    every state. *)
Theorem reset_yields_full_open (b : Battery.t) :
  resetBattery b = Battery.mk false false 75 75 /\
  Battery.electrolyteH (resetBattery b) = 75%Z /\
  Battery.ionsCount (resetBattery b) = 75%Z /\
  Battery.isDepleted (resetBattery b) = false /\
  Battery.isOpen (resetBattery b) = false.
Proof. repeat split. Qed.

(** C10: in every state reached from the initial one by clicks, resets and
    ticks of the interval, the electrolyte level and the ion count are the
    same number. *)
Theorem levels_equal_when_reachable (b : Battery.t) :
  reachable b -> Battery.electrolyteH b = Battery.ionsCount b.
Proof.
  induction 1 as [| b b' R IH S].
  - reflexivity.
  - exact (step_keeps_levels_equal b b' S IH).
Qed.

Lemma levels_equal_when_reachable_witness :
  Battery.electrolyteH closedExhausted = Battery.ionsCount closedExhausted.
Proof.
  apply (levels_equal_when_reachable closedExhausted).
  apply reachable_closedExhausted.
Defined.

(** ** The per-frame integrator *)

Lemma wrap_add (a b : Q) : wrap (wrap a + b) == wrap (a + b).
Proof.
  destruct (wrap_decompose a) as [k E].
  rewrite <- (wrap_turns (wrap a + b) k). apply wrap_comp. lra.
Qed.

Lemma thousandth (a : Q) : a / 1000 * 1000 == a.
Proof. apply Qdiv_mult_l. discriminate. Qed.

Lemma animate_lastTimeRef (c : Circuit.t) (time : Q) :
  Circuit.lastTimeRef (animate c time) = Some time.
Proof. reflexivity. Qed.

Lemma animate_conducting (c : Circuit.t) (time : Q) :
  conducting (Circuit.battery c) = true ->
  Circuit.electrons (animate c time) =
    map (advance ((time - refNumber (Circuit.lastTimeRef c)) / 1000))
      (Circuit.electrons c).
Proof. intros H. unfold animate. now rewrite H. Qed.

Lemma animate_idle (c : Circuit.t) (time : Q) :
  conducting (Circuit.battery c) = false ->
  Circuit.electrons (animate c time) = Circuit.electrons c.
Proof. intros H. unfold animate. now rewrite H. Qed.

Lemma moved_seconds (s s' : Q) (e e' : Electron.t) :
  s == s' -> moved s e e' -> moved s' e e'.
Proof.
  intros E (T & R). split; [ | exact R ].
  rewrite T. apply wrap_comp. rewrite E. reflexivity.
Qed.

Lemma moved_zero (e : Electron.t) : onTrack e -> moved 0 e e.
Proof.
  intros [Lo Hi]. unfold RAIL_TOTAL_LENGTH in Hi.
  repeat split. symmetry.
  rewrite <- (wrap_id (Electron.trackPos e)) at 2 by assumption.
  apply wrap_comp. unfold ELECTRON_SPEED. lra.
Qed.

Lemma moved_nonneg (s : Q) (e e' : Electron.t) :
  moved s e e' -> 0 <= Electron.trackPos e'.
Proof. intros (T & _). rewrite T. apply wrap_range. Qed.

(** One frame of [d] seconds carries an electron [d] seconds further. *)
Lemma moved_advance (s d : Q) (e e' : Electron.t) :
  0 <= d -> moved s e e' -> moved (s + d) e (advance d e').
Proof.
  intros D M. pose proof (moved_nonneg s e e' M) as N.
  destruct M as (T & R). split; [ | exact R ].
  unfold advance. cbn [Electron.trackPos].
  rewrite rem_nonneg by (unfold ELECTRON_SPEED; lra).
  rewrite (wrap_comp _ _
             (Qplus_comp _ _ T _ _ (Qeq_refl (ELECTRON_SPEED * d)))).
  rewrite wrap_add. apply wrap_comp. unfold ELECTRON_SPEED. lra.
Qed.

(** Two frames in a row carry an electron as far as one frame of their
    total length. *)
Lemma advance_additive (e : Electron.t) (d1 d2 : Q) :
  onTrack e -> 0 <= d1 -> 0 <= d2 ->
  Electron.trackPos (advance d2 (advance d1 e)) ==
    Electron.trackPos (advance (d1 + d2) e).
Proof.
  intros T P1 P2. pose proof (moved_zero e T) as M.
  destruct (moved_advance _ d2 _ _ P2 (moved_advance _ d1 _ _ P1 M))
    as [E2 _].
  assert (0 <= d1 + d2) as P by lra.
  destruct (moved_advance _ (d1 + d2) _ _ P M) as [E _].
  rewrite E2, E. apply wrap_comp. lra.
Qed.

Lemma last_cons (t d : Q) (ts : list Q) : last (t :: ts) d = last ts t.
Proof.
  revert t d. induction ts as [| u ts IH]; intros t d; [ reflexivity | ].
  change (last (t :: u :: ts) d) with (last (u :: ts) d).
  now rewrite !IH.
Qed.

(** The frames [ts] after a circuit whose electrons have already been
    carried [s0] seconds from [es0]. *)
Lemma animate_frames (ts : list Q) :
  forall (c : Circuit.t) (t0 s0 : Q) (es0 : list Electron.t),
    conducting (Circuit.battery c) = true ->
    Circuit.lastTimeRef c = Some t0 ->
    frames t0 ts ->
    Forall2 (moved s0) es0 (Circuit.electrons c) ->
    Forall2 (moved (s0 + (last ts t0 - t0) / 1000)) es0
      (Circuit.electrons (fold_left animate ts c)).
Proof.
  induction ts as [| t ts IH]; intros c t0 s0 es0 C L F M.
  - cbn [fold_left last].
    eapply Forall2_impl; [ | exact M ].
    intros e e'. apply moved_seconds.
    pose proof (thousandth (t0 - t0)) as D.
    set (d := (t0 - t0) / 1000) in *. clearbody d. lra.
  - destruct F as [F0 F]. cbn [fold_left]. rewrite last_cons.
    pose proof (thousandth (t - t0)) as D.
    pose proof (thousandth (last ts t - t)) as D1.
    pose proof (thousandth (last ts t - t0)) as D2.
    assert (Forall2 (moved (s0 + (t - t0) / 1000)) es0
              (Circuit.electrons (animate c t))) as M1.
    { rewrite animate_conducting by assumption. rewrite L.
      cbn [refNumber].
      set (d := (t - t0) / 1000) in *. clearbody d.
      clear - M D F0. induction M as [| e e' es es' M0 M IHM].
      - constructor.
      - cbn [map]. constructor; [ | exact IHM ].
        apply moved_advance; [ lra | exact M0 ]. }
    specialize (IH (animate c t) t (s0 + (t - t0) / 1000) es0
                  C (animate_lastTimeRef c t) F M1).
    eapply Forall2_impl; [ | exact IH ].
    intros e e'. apply moved_seconds.
    set (d := (t - t0) / 1000) in *.
    set (d1 := (last ts t - t) / 1000) in *.
    set (d2 := (last ts t - t0) / 1000) in *.
    clearbody d d1 d2. lra.
Qed.

Lemma animate_frames_idle (ts : list Q) :
  forall c : Circuit.t,
    conducting (Circuit.battery c) = false ->
    Circuit.electrons (fold_left animate ts c) = Circuit.electrons c.
Proof.
  induction ts as [| t ts IH]; intros c C; [ reflexivity | ].
  cbn [fold_left]. rewrite IH by exact C. now apply animate_idle.
Qed.

Lemma newElectron_onTrack (i : Z) (r1 r2 r3 r4 : Q) :
  0 <= r1 -> r1 < 1 -> onTrack (newElectron i r1 r2 r3 r4).
Proof.
  intros Lo Hi. unfold onTrack, newElectron, RAIL_TOTAL_LENGTH.
  cbn [Electron.trackPos]. split; lra.
Qed.

(** The position [animate] computes is the one the specification writes
    with its own numbers, 20 units per second modulo 2040. *)
Lemma moved_carried (s : Q) (e e' : Electron.t) :
  moved s e e' -> carried s e e'.
Proof.
  intros (T & R). split; [ | exact R ].
  rewrite T. unfold expectedPosition, floorMod2040, ELECTRON_SPEED.
  apply wrap_floor.
Qed.

(** C4: with the circuit closed and the battery not exhausted, whatever the
    frames [ts] that follow the frame at [t0] (none earlier than the one
    before), every electron ends at [(initial + 20 t) mod 2040], where [t] is
    the time in seconds from [t0] to the last frame, and is otherwise
    unchanged: the result does not depend on how [t] is cut into frames.
    In particular a frame of [d1] seconds followed by one of [d2] seconds
    moves every electron as one frame of [d1 + d2] seconds does, to
    [(initial + 20 (d1 + d2)) mod 2040]. *)
Theorem animate_closed_position (c : Circuit.t) (t0 : Q) (ts : list Q) :
  Battery.isOpen (Circuit.battery c) = true ->
  Battery.isDepleted (Circuit.battery c) = false ->
  Circuit.lastTimeRef c = Some t0 ->
  frames t0 ts ->
  Forall onTrack (Circuit.electrons c) ->
  Forall2 (carried ((last ts t0 - t0) / 1000))
    (Circuit.electrons c) (Circuit.electrons (fold_left animate ts c)) /\
  Forall
    (fun e =>
       forall d1 d2 : Q,
         0 < d1 -> 0 < d2 ->
         Electron.trackPos (advance d2 (advance d1 e)) ==
           Electron.trackPos (advance (d1 + d2) e) /\
         Electron.trackPos (advance (d1 + d2) e) ==
           expectedPosition (Electron.trackPos e) (d1 + d2))
    (Circuit.electrons c).
Proof.
  intros O D L F T.
  split.
  2:{ eapply Forall_impl; [ | exact T ]. intros e Te d1 d2 P1 P2. split.
      - apply advance_additive; trivial; lra.
      - assert (0 <= d1 + d2) as P by lra.
        assert (0 + (d1 + d2) == d1 + d2) as Z by lra.
        destruct (moved_carried _ _ _
                    (moved_seconds _ _ _ _ Z
                       (moved_advance _ _ _ _ P (moved_zero e Te))))
          as [E _].
        exact E. }
  assert (conducting (Circuit.battery c) = true) as C
    by (unfold conducting; now rewrite O, D).
  assert (Forall2 (moved 0) (Circuit.electrons c) (Circuit.electrons c)) as M.
  { clear - T. induction T as [| e es T0 T IH]; constructor; trivial.
    now apply moved_zero. }
  pose proof (animate_frames ts c t0 0 (Circuit.electrons c) C L F M) as R.
  eapply Forall2_impl; [ | exact R ].
  intros e e' H. apply moved_carried. revert H. apply moved_seconds. lra.
Qed.

Lemma animate_closed_position_witness :
  Forall2 (carried ((last [400; 1000] 0 - 0) / 1000))
    (Circuit.electrons sampleCircuit)
    (Circuit.electrons (fold_left animate [400; 1000] sampleCircuit)).
Proof.
  apply (animate_closed_position sampleCircuit 0 [400; 1000]).
  - reflexivity.
  - reflexivity.
  - reflexivity.
  - simpl. repeat split; discriminate.
  - repeat constructor; simpl; discriminate.
Defined.

(** C5: while the switch is released or the battery is exhausted, no
    sequence of frames changes the electrons: their list, and so every
    track position and every lateral offset, stays exactly as it was. *)
Theorem animate_frozen (c : Circuit.t) (ts : list Q) :
  Battery.isOpen (Circuit.battery c) = false \/
  Battery.isDepleted (Circuit.battery c) = true ->
  Circuit.electrons (fold_left animate ts c) = Circuit.electrons c /\
  map Electron.trackPos (Circuit.electrons (fold_left animate ts c)) =
    map Electron.trackPos (Circuit.electrons c) /\
  map Electron.transPos (Circuit.electrons (fold_left animate ts c)) =
    map Electron.transPos (Circuit.electrons c).
Proof.
  intros H.
  assert (Circuit.electrons (fold_left animate ts c) = Circuit.electrons c)
    as E.
  { apply animate_frames_idle. unfold conducting.
    destruct H as [H | H]; rewrite H; [ reflexivity | apply andb_false_r ]. }
  now rewrite E.
Qed.

Lemma animate_frozen_witness :
  Circuit.electrons (fold_left animate [16; 33; 1000] sampleOpenCircuit) =
    Circuit.electrons sampleOpenCircuit.
Proof.
  apply (animate_frozen sampleOpenCircuit [16; 33; 1000]).
  left. reflexivity.
Defined.

(** ** Electrons released inside the battery *)

Lemma removeBatElectron_gone (id : Q) (pool : list BatElectron.t) :
  Forall (fun e => ~ BatElectron.id e == id) (removeBatElectron id pool).
Proof.
  apply Forall_forall. intros e H. unfold removeBatElectron in H.
  apply filter_In in H. destruct H as [_ H]. intros E.
  apply Qeq_bool_iff in E. rewrite E in H. discriminate H.
Qed.

(** C7 (as the code has it): [progress] is [(now - start) / 1000] with no
    clamp, and the opacity is [1 - progress]; [progress] lies in [[0, 1]]
    exactly when the render falls within the 1000 ms after the birth of the
    entry, and it exceeds 1 (the opacity is negative) exactly when the
    render comes later than that. *)
Theorem progress_is_not_clamped (now : Q) (be : BatElectron.t) :
  progress now be * 1000 == now - BatElectron.start be /\
  Style.opacity (renderBatElectron now be) == 1 - progress now be /\
  Style.left (renderBatElectron now be) ==
    (BatElectron.x be - 350)
    + (50 - (BatElectron.x be - 350)) * progress now be /\
  Style.top (renderBatElectron now be) ==
    BatElectron.y be + (37.5 - BatElectron.y be) * progress now be /\
  (0 <= progress now be /\ progress now be <= 1 <->
   BatElectron.start be <= now /\ now <= BatElectron.start be + 1000) /\
  (1 < progress now be <-> BatElectron.start be + 1000 < now) /\
  (Style.opacity (renderBatElectron now be) < 0 <->
   BatElectron.start be + 1000 < now).
Proof.
  unfold renderBatElectron. cbv zeta.
  cbn [Style.opacity Style.left Style.top].
  pose proof (thousandth (now - BatElectron.start be)) as D.
  fold (progress now be) in D.
  set (g := progress now be) in *. clearbody g.
  repeat split; intros; lra.
Qed.

(** C7 (as stated) fails: an entry born at time 0 whose removal is late and
    which is drawn at time 1500 has progress 1.5, a negative opacity and a
    position beyond the target abscissa 50. *)
Lemma late_render_exceeds_one :
  Circuit.batElectrons lateCircuit = [lateEntry] /\
  renderBatElectrons 1500 lateCircuit = [renderBatElectron 1500 lateEntry] /\
  progress 1500 lateEntry == 1.5 /\
  ~ progress 1500 lateEntry <= 1 /\
  Style.opacity (renderBatElectron 1500 lateEntry) == -0.5 /\
  Style.opacity (renderBatElectron 1500 lateEntry) < 0 /\
  50 < Style.left (renderBatElectron 1500 lateEntry).
Proof.
  split; [ reflexivity | ]. split; [ reflexivity | ].
  split; [ reflexivity | ].
  split; [ intros H; vm_compute in H; now apply H | ].
  split; [ reflexivity | ].
  split; reflexivity.
Qed.

(** ** Field lines *)

(** C8: the loop ends and returns the projections of the arc lengths
    [0, 40, ..., 2000] (51 candidates), in this order, without those whose
    projection lies on the top side with an abscissa in [[250, 400]]; the
    candidates left out are 0, 40 and 2000, and 48 markers remain. *)
Theorem fieldLines_samples :
  fieldLinesGenerated =
    Some (map (fun p => getXY p 0)
            (filter (fun p => negb (overlapsBattery (getXY p 0)))
               fieldLineCandidates)) /\
  length fieldLineCandidates = 51%nat /\
  filter (fun p => overlapsBattery (getXY p 0)) fieldLineCandidates =
    [0; 40; 2000] /\
  option_map (@length Point.t) fieldLinesGenerated = Some 48%nat.
Proof. vm_compute. repeat split. Qed.

(** ** The loop *)

(** C3: with no lateral offset [getXY] is periodic of period 2040, it makes
    no jump (each coordinate moves by at most the distance travelled along
    the loop, for any two positions), and at the four corners and at the
    wrap point the formula of the side that ends there gives the very point
    [getXY] returns there with the formula of the side that starts. *)
Theorem getXY_periodic_continuous :
  (forall p : Q,
     Point.equiv (getXY (p + RAIL_TOTAL_LENGTH) 0) (getXY p 0)) /\
  (forall p q : Q,
     Qabs (Point.x (getXY p 0) - Point.x (getXY q 0)) <= Qabs (p - q) /\
     Qabs (Point.y (getXY p 0) - Point.y (getXY q 0)) <= Qabs (p - q)) /\
  (Point.x (getXY 317.5 0) == 325 + 317.5 /\
   Point.y (getXY 317.5 0) == 7.5 + 0) /\
  (Point.x (getXY 702.5 0) == 642.5 - 0 /\
   Point.y (getXY 702.5 0) == 7.5 + (702.5 - 317.5)) /\
  (Point.x (getXY 1337.5 0) == 642.5 - (1337.5 - (317.5 + 385)) /\
   Point.y (getXY 1337.5 0) == 392.5 - 0) /\
  (Point.x (getXY 1722.5 0) == 7.5 + 0 /\
   Point.y (getXY 1722.5 0) == 392.5 - (1722.5 - (317.5 + 385 + 635))) /\
  (Point.x (getXY 0 0) == 7.5 + (2040 - (317.5 + 385 + 635 + 385)) /\
   Point.y (getXY 0 0) == 7.5 + 0 /\
   Point.equiv (getXY 2040 0) (getXY 0 0)).
Proof.
  split; [ intros p; apply getXY_turn | ].
  split; [ apply getXY_lipschitz | ].
  repeat split; reflexivity.
Qed.

(** C9 (as the code has it): on the right side a positive lateral offset [t]
    puts the point at abscissa [642.5 - t], strictly less than the rail
    abscissa 642.5, and on the bottom side at ordinate [392.5 - t], strictly
    less than the rail ordinate 392.5: toward the inside of the loop. *)
Theorem positive_offset_points_inward (p t : Q) :
  0 < t ->
  (Point.segment (getXY p t) = Right ->
   Point.x (getXY p t) == 642.5 - t /\ Point.x (getXY p t) < 642.5) /\
  (Point.segment (getXY p t) = Bottom ->
   Point.y (getXY p t) == 392.5 - t /\ Point.y (getXY p t) < 392.5).
Proof.
  intros T.
  getXY_split p t; split; intros S; try discriminate S; split; lra.
Qed.

Lemma positive_offset_points_inward_witness :
  0 < 1 /\
  Point.x (getXY 500 1) < 642.5 /\ Point.y (getXY 1000 1) < 392.5.
Proof.
  assert (0 < 1) as T by reflexivity.
  split; [ exact T | ].
  destruct (positive_offset_points_inward 500 1 T) as [R _].
  destruct (positive_offset_points_inward 1000 1 T) as [_ B].
  split; [ apply R | apply B ]; reflexivity.
Defined.

(** C9 (as stated) fails: at arc length 500, on the right side, the offset 1
    gives the abscissa 641.5, which is not greater than 642.5; at arc length
    1000, on the bottom side, it gives the ordinate 391.5, which is not
    greater than 392.5. *)
Lemma positive_offset_not_outward :
  Point.segment (getXY 500 1) = Right /\
  Point.x (getXY 500 1) == 641.5 /\
  ~ 642.5 < Point.x (getXY 500 1) /\
  Point.segment (getXY 1000 1) = Bottom /\
  Point.y (getXY 1000 1) == 391.5 /\
  ~ 392.5 < Point.y (getXY 1000 1).
Proof.
  split; [ reflexivity | ]. split; [ reflexivity | ].
  split; [ intros H; vm_compute in H; discriminate H | ].
  split; [ reflexivity | ]. split; [ reflexivity | ].
  intros H; vm_compute in H; discriminate H.
Qed.

(** * Further properties of the code *)

(** ** The loop and what is drawn on it *)

Lemma leb_spec (a b : Q) : BoolSpec (a <= b) (b < a) (Js.leb a b).
Proof.
  unfold Js.leb. destruct (Qle_bool a b) eqn:E; constructor.
  - now apply Qle_bool_iff.
  - apply Qnot_le_lt. intros H. apply Qle_bool_iff in H. congruence.
Qed.

Lemma geb_spec (a b : Q) : BoolSpec (b <= a) (a < b) (Js.geb a b).
Proof. unfold Js.geb. apply (leb_spec b a). Qed.

Lemma Segment_eqb_eq (a b : Segment) : Segment_eqb a b = true <-> a = b.
Proof. destruct a, b; simpl; split; congruence. Qed.

(** X1: on a track position that is not negative, as are all those the
    component produces, [p % 2040] is already the wrapped position: the
    line that adds 2040 is not taken, and the result is [p mod 2040], in
    [[0, 2040)]. *)
Theorem wrap_floored_modulo (p : Q) :
  0 <= p ->
  Js.ltb (Js.rem p RAIL_TOTAL_LENGTH) 0 = false /\
  wrap p = Js.rem p RAIL_TOTAL_LENGTH /\
  wrap p == floorMod2040 p /\
  0 <= wrap p /\ wrap p < 2040.
Proof.
  intros P. pose proof (rem_nonneg p P) as R.
  destruct (wrap_range p) as [Lo Hi].
  assert (Js.ltb (Js.rem p RAIL_TOTAL_LENGTH) 0 = false) as F.
  { destruct (ltb_spec (Js.rem p RAIL_TOTAL_LENGTH) 0) as [N | N];
      [ exfalso; lra | reflexivity ]. }
  split; [ exact F | ]. split; [ unfold wrap; now rewrite F | ].
  split; [ apply wrap_floor | ]. now split.
Qed.

Lemma wrap_floored_modulo_witness :
  0 <= 5000 /\ wrap 5000 == floorMod2040 5000 /\ wrap 5000 < 2040.
Proof.
  assert (0 <= 5000) as P by discriminate.
  split; [ exact P | ].
  destruct (wrap_floored_modulo 5000 P) as (_ & _ & E & _ & H).
  split; [ exact E | exact H ].
Defined.

Lemma getXY_in_band (p t : Q) :
  -7.5 <= t -> t <= 7.5 ->
  0 <= Point.x (getXY p t) /\ Point.x (getXY p t) <= 650 /\
  0 <= Point.y (getXY p t) /\ Point.y (getXY p t) <= 400 /\
  match Point.segment (getXY p t) with
  | Top => Point.y (getXY p t) <= 15
  | Right => 650 - 15 <= Point.x (getXY p t)
  | Bottom => 400 - 15 <= Point.y (getXY p t)
  | Left => Point.x (getXY p t) <= 15
  end.
Proof.
  intros Lo Hi. destruct (wrap_range p) as [W0 W1].
  getXY_split p t; repeat split; lra.
Qed.

(** X2: an electron whose lateral offset is within the half width of the
    conductor is drawn inside the white border of the frame: on the top
    side within the upper 15 units, on the right side within the right 15
    units, and so on, for every track position. *)
Theorem getXY_within_conductor (p t : Q) :
  - (CONDUCTOR_WIDTH / 2) <= t -> t <= CONDUCTOR_WIDTH / 2 ->
  let pos := getXY p t in
  0 <= Point.x pos /\ Point.x pos <= OUTER_WIDTH /\
  0 <= Point.y pos /\ Point.y pos <= OUTER_HEIGHT /\
  match Point.segment pos with
  | Top => Point.y pos <= CONDUCTOR_WIDTH
  | Right => OUTER_WIDTH - CONDUCTOR_WIDTH <= Point.x pos
  | Bottom => OUTER_HEIGHT - CONDUCTOR_WIDTH <= Point.y pos
  | Left => Point.x pos <= CONDUCTOR_WIDTH
  end.
Proof.
  intros Lo Hi pos. subst pos.
  assert (CONDUCTOR_WIDTH / 2 == 7.5) as E by reflexivity.
  rewrite E in Lo, Hi. clear E.
  unfold OUTER_WIDTH, OUTER_HEIGHT, CONDUCTOR_WIDTH.
  apply getXY_in_band; lra.
Qed.

Lemma getXY_within_conductor_witness :
  0 <= Point.x (getXY (-40) 7.5) /\ Point.x (getXY (-40) 7.5) <= OUTER_WIDTH.
Proof.
  assert (- (CONDUCTOR_WIDTH / 2) <= 7.5) as Lo by (vm_compute; discriminate).
  assert (7.5 <= CONDUCTOR_WIDTH / 2) as Hi by (vm_compute; discriminate).
  destruct (getXY_within_conductor (-40) 7.5 Lo Hi) as (A & B & _).
  split; [ exact A | exact B ].
Defined.

(** X3: the centre line of the loop never passes twice through a point:
    two track positions are drawn at the same coordinates exactly when
    they are the same position up to whole turns. *)
Theorem getXY_injective (p q : Q) :
  Point.x (getXY p 0) == Point.x (getXY q 0) /\
  Point.y (getXY p 0) == Point.y (getXY q 0) <->
  wrap p == wrap q.
Proof.
  destruct (wrap_range p) as [P0 P1]. destruct (wrap_range q) as [Q0 Q1].
  split.
  - intros [Ex Ey]. revert Ex Ey.
    getXY_split p 0; getXY_split q 0; intros Ex Ey; lra.
  - intros E.
    getXY_split p 0; getXY_split q 0;
      solve [ split; lra | exfalso; lra ].
Qed.

Lemma ltb_true (a b : Q) : Js.ltb a b = true <-> a < b.
Proof.
  destruct (ltb_spec a b); split; trivial; try discriminate.
  intros L. exfalso. lra.
Qed.

Lemma leb_true (a b : Q) : Js.leb a b = true <-> a <= b.
Proof. apply Qle_bool_iff. Qed.

Lemma geb_true (a b : Q) : Js.geb a b = true <-> b <= a.
Proof. apply Qle_bool_iff. Qed.

Lemma isUnderBattery_true (pos : Point.t) :
  isUnderBattery pos = true <->
  250 <= Point.x pos /\ Point.x pos <= 400 /\
  -30 <= Point.y pos /\ Point.y pos <= 45.
Proof.
  unfold isUnderBattery.
  rewrite !andb_true_iff, !geb_true, !leb_true. tauto.
Qed.

Lemma isUnderSwitch_true (isOpen : bool) (pos : Point.t) :
  isUnderSwitch isOpen pos = true <->
  isOpen = false /\ 400 < Point.x pos /\ Point.x pos < 430 /\
  Point.y pos < 20.
Proof.
  unfold isUnderSwitch.
  rewrite !andb_true_iff, !ltb_true, negb_true_iff. tauto.
Qed.

Lemma overlapsBattery_true (pos : Point.t) :
  overlapsBattery pos = true <->
  Point.segment pos = Top /\ 250 <= Point.x pos /\ Point.x pos <= 400.
Proof.
  unfold overlapsBattery.
  rewrite !andb_true_iff, geb_true, leb_true, Segment_eqb_eq. tauto.
Qed.

(** The battery test on a centred sample, read off the wrapped position. *)
Lemma isUnderBattery_centre (p : Q) :
  isUnderBattery (getXY p 0) = true <-> behindBattery (wrap p).
Proof.
  rewrite isUnderBattery_true. unfold behindBattery.
  destruct (wrap_range p) as [W0 W1].
  getXY_split p 0;
    (split; [ intros (A & B & C' & D); first [ left; lra | right; lra ]
            | intros [A | A]; first [ repeat split; lra | exfalso; lra ] ]).
Qed.

(** X4: an electron in a lane of the conductor is left out of the drawing
    exactly while its track position is within 75 units of the top centre,
    where the battery covers the rail, or, as long as the switch is drawn,
    within the 30 units that follow; it is never hidden on the right, bottom
    or left side.  When it is drawn, it is drawn at the point [getXY] gives
    and under its own [id]. *)
Theorem renderElectron_hidden (b : Battery.t) (e : Electron.t) :
  -7.5 <= Electron.transPos e -> Electron.transPos e <= 7.5 ->
  (renderElectron b e = None <->
   behindBattery (wrap (Electron.trackPos e)) \/
   (Battery.isOpen b = false /\ behindSwitch (wrap (Electron.trackPos e)))) /\
  (renderElectron b e = None ->
   Point.segment (getXY (Electron.trackPos e) (Electron.transPos e)) = Top) /\
  (forall d : Dot.t,
     renderElectron b e = Some d ->
     Dot.key d = Electron.id e /\
     Dot.left d = Point.x (getXY (Electron.trackPos e) (Electron.transPos e)) /\
     Dot.top d = Point.y (getXY (Electron.trackPos e) (Electron.transPos e))).
Proof.
  intros Lo Hi.
  set (p := Electron.trackPos e) in *. set (t := Electron.transPos e) in *.
  assert (renderElectron b e = None <->
          isUnderBattery (getXY p t) = true \/
          isUnderSwitch (Battery.isOpen b) (getXY p t) = true) as R.
  { unfold renderElectron. fold p t. cbv zeta. rewrite <- orb_true_iff.
    destruct (isUnderBattery (getXY p t)
              || isUnderSwitch (Battery.isOpen b) (getXY p t));
      split; congruence. }
  rewrite isUnderBattery_true, isUnderSwitch_true in R.
  unfold behindBattery, behindSwitch.
  destruct (wrap_range p) as [W0 W1].
  split; [ | split ].
  - rewrite R. clear R. clearbody p t.
    getXY_split p t;
      (split;
       [ intros [(A & B & C' & D) | (O & A & B & C')];
         first [ left; left; lra | left; right; lra
               | right; split; [ exact O | lra ] | exfalso; lra ]
       | intros [[A | A] | (O & A & B)];
         first [ left; repeat split; lra
               | right; repeat split; trivial; lra
               | exfalso; lra ] ]).
  - intros H. apply R in H. clear R. clearbody p t. revert H.
    getXY_split p t; intros [(A & B & C' & D) | (O & A & B & C')];
      first [ reflexivity | exfalso; lra ].
  - intros d H. unfold renderElectron in H. fold p t in H. cbv zeta in H.
    destruct (isUnderBattery (getXY p t)
              || isUnderSwitch (Battery.isOpen b) (getXY p t));
      [ discriminate H | ].
    injection H as <-. repeat split.
Qed.

Lemma renderElectron_hidden_witness :
  renderElectron initialBattery (Electron.mk 7 2000 (-3) (-1) 0.5) = None <->
  behindBattery (wrap 2000) \/
  (Battery.isOpen initialBattery = false /\ behindSwitch (wrap 2000)).
Proof.
  apply (renderElectron_hidden initialBattery
           (Electron.mk 7 2000 (-3) (-1) 0.5));
    vm_compute; discriminate.
Defined.

(** X5: a field line is left out exactly where a centred electron is hidden
    by the battery: the test of [fieldLinesGenerated] and the test of the
    electron layer agree on every sample, and both hold exactly within 75
    units of the top centre. *)
Theorem overlapsBattery_agrees (p : Q) :
  overlapsBattery (getXY p 0) = isUnderBattery (getXY p 0) /\
  (overlapsBattery (getXY p 0) = true <-> behindBattery (wrap p)).
Proof.
  assert (overlapsBattery (getXY p 0) = true <-> behindBattery (wrap p)) as O.
  { rewrite overlapsBattery_true. unfold behindBattery.
    destruct (wrap_range p) as [W0 W1].
    getXY_split p 0;
      (split;
       [ intros (S & A & B);
         first [ discriminate S | left; lra | right; lra ]
       | intros [A | A];
         first [ repeat split; lra | exfalso; lra ] ]). }
  split; [ | exact O ].
  pose proof (isUnderBattery_centre p) as U.
  destruct (overlapsBattery (getXY p 0)), (isUnderBattery (getXY p 0));
    trivial.
  - symmetry. apply U, O. reflexivity.
  - apply O, U. reflexivity.
Qed.

(** X6: the bar drawn for the field line at a track position is centred on
    the rail there and covers every electron at that track position,
    whatever its lane in the conductor. *)
Theorem renderFieldLine_covers_lanes (p t : Q) :
  -7.5 <= t -> t <= 7.5 ->
  let bar := renderFieldLine (getXY p 0) in
  let pos := getXY p t in
  Bar.left bar + Bar.width bar / 2 == Point.x (getXY p 0) /\
  Bar.top bar + Bar.height bar / 2 == Point.y (getXY p 0) /\
  Bar.left bar <= Point.x pos /\ Point.x pos <= Bar.left bar + Bar.width bar /\
  Bar.top bar <= Point.y pos /\ Point.y pos <= Bar.top bar + Bar.height bar.
Proof.
  intros Lo Hi bar pos. subst bar pos. unfold renderFieldLine.
  assert (2 / 2 == 1) as E1 by reflexivity.
  assert (60 / 2 == 30) as E2 by reflexivity.
  pose proof (wrap_range p) as [W0 W1].
  destruct (getXY_cases p t)
    as [[C E] | [(? & C & E) | [(? & C & E) | [(? & C & E) | [C E]]]]];
    cbv zeta in *; rewrite E; clear E;
    getXY_split p 0; try (exfalso; lra);
    cbn [Segment_eqb orb Bar.left Bar.top Bar.width Bar.height];
    rewrite ?E1, ?E2; repeat split; lra.
Qed.

Lemma renderFieldLine_covers_lanes_witness :
  Bar.left (renderFieldLine (getXY 500 0)) <= Point.x (getXY 500 7.5).
Proof.
  assert (-7.5 <= 7.5) as Lo by (vm_compute; discriminate).
  assert (7.5 <= 7.5) as Hi by (vm_compute; discriminate).
  destruct (renderFieldLine_covers_lanes 500 7.5 Lo Hi) as (_ & _ & A & _).
  exact A.
Defined.

Lemma frame_moves (d : Q) (e : Electron.t) :
  onTrack e -> 0 < d -> d < 102 ->
  ~ Electron.trackPos (advance d e) == Electron.trackPos e.
Proof.
  intros T D0 D1 E.
  assert (0 <= d) as D by lra.
  destruct (moved_carried _ _ _ (moved_advance _ _ _ _ D (moved_zero e T)))
    as [C _].
  rewrite E in C. unfold expectedPosition, floorMod2040 in C.
  destruct T as [T0 T1]. unfold RAIL_TOTAL_LENGTH in T1.
  set (k := Qfloor ((Electron.trackPos e + 20 * (0 + d)) / 2040)) in *.
  clearbody k.
  assert (0 < k)%Z by (rewrite Zlt_Qlt; change (inject_Z 0) with 0; lra).
  assert (k < 1)%Z by (rewrite Zlt_Qlt; change (inject_Z 1) with 1; lra).
  lia.
Qed.

(** X7: for a frame of positive length under 102 seconds on a component
    with at least one electron, all on the loop: the bulb has its lit
    colour, and the field lines are drawn, exactly when the frame moves
    every electron to another track position; the bulb has its unlit
    colour, and no field line is drawn, exactly when the frame leaves the
    electrons as they are. *)
Theorem lit_exactly_when_moving
  (c : Circuit.t) (t0 time : Q) (lines : list Point.t) :
  Circuit.lastTimeRef c = Some t0 ->
  t0 < time -> time < t0 + 102000 ->
  Forall onTrack (Circuit.electrons c) ->
  Circuit.electrons c <> [] -> lines <> [] ->
  let moving :=
    Forall2 (fun e e' => ~ Electron.trackPos e' == Electron.trackPos e)
      (Circuit.electrons c) (Circuit.electrons (animate c time)) in
  let still := Circuit.electrons (animate c time) = Circuit.electrons c in
  (bulbColor (Circuit.battery c) = "#fbbf24"%string <-> moving) /\
  (bulbColor (Circuit.battery c) = "#d1d5db"%string <-> still) /\
  (renderFieldLines (Circuit.battery c) lines <> [] <-> moving) /\
  (renderFieldLines (Circuit.battery c) lines = [] <-> still).
Proof.
  intros L T0 T1 T N NL moving still.
  pose proof (thousandth (time - t0)) as D.
  unfold bulbColor, renderFieldLines.
  destruct (conducting (Circuit.battery c)) eqn:C.
  - assert (moving) as M.
    { unfold moving. rewrite animate_conducting by exact C. rewrite L.
      cbn [refNumber]. set (d := (time - t0) / 1000) in *. clearbody d.
      clear - T D T0 T1. induction T as [| e es Te T IH]; [ constructor | ].
      cbn [map]. constructor; [ | exact IH ].
      apply frame_moves; trivial; lra. }
    assert (~ still) as S.
    { unfold still. intros E. unfold moving in M. rewrite E in M.
      destruct (Circuit.electrons c) as [| e es]; [ congruence | ].
      inversion M as [| ? ? ? ? H _]. apply H. reflexivity. }
    repeat split; trivial; try tauto; try discriminate.
    + intros _. destruct lines; [ congruence | discriminate ].
    + intros E. destruct lines; [ congruence | discriminate E ].
  - assert (still) as S by (unfold still; now apply animate_idle).
    assert (~ moving) as M.
    { unfold moving. unfold still in S. rewrite S.
      destruct (Circuit.electrons c) as [| e es]; [ congruence | ].
      intros F. inversion F as [| ? ? ? ? H _]. apply H. reflexivity. }
    repeat split; trivial; try tauto; try discriminate.
Qed.

Lemma lit_exactly_when_moving_witness :
  bulbColor (Circuit.battery sampleCircuit) = "#fbbf24"%string <->
  Forall2 (fun e e' => ~ Electron.trackPos e' == Electron.trackPos e)
    (Circuit.electrons sampleCircuit)
    (Circuit.electrons (animate sampleCircuit 1000)).
Proof.
  apply (lit_exactly_when_moving sampleCircuit 0 1000
           [Point.mk 405 7.5 Top]).
  - reflexivity.
  - reflexivity.
  - reflexivity.
  - repeat constructor; simpl; discriminate.
  - discriminate.
  - discriminate.
Defined.

(** ** The battery *)

Lemma elapseSecond_isOpen (b : Battery.t) :
  Battery.isOpen (elapseSecond b) = Battery.isOpen b.
Proof. unfold elapseSecond. now destruct (conducting b). Qed.

Lemma elapse_idle (n : nat) (b : Battery.t) :
  conducting b = false -> Nat.iter n elapseSecond b = b.
Proof.
  intros C. induction n as [| n IH]; [ reflexivity | ].
  rewrite Nat.iter_succ, IH. unfold elapseSecond. now rewrite C.
Qed.

Lemma sound_step (b b' : Battery.t) : step b b' -> sound b -> sound b'.
Proof.
  assert (sound (Battery.mk false false 75 75)) as Full.
  { repeat split; try (simpl; lia). exists 15%Z. reflexivity. }
  intros S (R & (k & M) & D & I). destruct S as [b | b | b C].
  - unfold handleToggle. destruct (Battery.isDepleted b) eqn:E.
    + exact Full.
    + repeat split; simpl; try tauto; try lia. now exists k.
  - exact Full.
  - unfold conducting in C. apply andb_true_iff in C. destruct C as [_ C].
    apply negb_true_iff in C. rewrite C in D. symmetry in D.
    apply Z.eqb_neq in D.
    unfold depletionTick, sound, ELECTROLYTE_DEPLETION_RATE,
      IONS_DEPLETION_RATE.
    cbn [Battery.electrolyteH Battery.ionsCount Battery.isDepleted
         Battery.isOpen].
    rewrite I, C.
    set (h := Z.max 0 (Battery.electrolyteH b - 5)).
    assert (h = 5 * (k - 1))%Z as Hh by (unfold h; lia).
    repeat split; try lia.
    + exists (k - 1)%Z. exact Hh.
    + destruct (h =? 0)%Z; reflexivity.
Qed.

Lemma reachable_is_sound (b : Battery.t) : reachable b -> sound b.
Proof.
  induction 1 as [| b b' R IH S].
  - repeat split; try (simpl; lia). exists 15%Z. reflexivity.
  - exact (sound_step b b' S IH).
Qed.

Lemma conducting_has_charge (b : Battery.t) :
  sound b -> conducting b = true -> (0 < Battery.electrolyteH b)%Z.
Proof.
  intros (B & _ & D & _) C. unfold conducting in C.
  apply andb_true_iff in C. destruct C as [_ C].
  apply negb_true_iff in C. rewrite C in D.
  symmetry in D. apply Z.eqb_neq in D. lia.
Qed.

(** X8: in every state the battery can reach, the level is one of
    0, 5, ..., 75, the ion count is the same number, and the battery is marked
    exhausted exactly when the level is 0; so a conducting battery always has
    something left. *)
Theorem reachable_sound (b : Battery.t) :
  reachable b ->
  (0 <= Battery.electrolyteH b <= 75)%Z /\
  (exists k : Z, Battery.electrolyteH b = 5 * k)%Z /\
  Battery.isDepleted b = (Battery.electrolyteH b =? 0)%Z /\
  Battery.ionsCount b = Battery.electrolyteH b /\
  (conducting b = true -> 0 < Battery.electrolyteH b)%Z.
Proof.
  intros R. destruct (reachable_is_sound b R) as (B & M & D & I).
  repeat split; trivial; try lia.
  intros C. apply (conducting_has_charge b); trivial. now repeat split.
Qed.

Lemma reachable_sound_witness :
  (0 <= Battery.electrolyteH closedExhausted <= 75)%Z.
Proof.
  apply (reachable_sound closedExhausted). apply reachable_closedExhausted.
Defined.

(** X10: releasing the switch of a conducting battery, waiting any number
    of seconds and pressing it again gives back exactly the battery that was
    left: nothing is lost while the circuit is open. *)
Theorem pause_and_resume (m : nat) (b : Battery.t) :
  conducting b = true ->
  handleToggle (Nat.iter m elapseSecond (handleToggle b)) = b.
Proof.
  intros C. unfold conducting in C. apply andb_true_iff in C.
  destruct C as [O D]. apply negb_true_iff in D.
  destruct b as [o d h i]. simpl in O, D. subst o d.
  unfold handleToggle at 2. simpl.
  rewrite elapse_idle by reflexivity. reflexivity.
Qed.

Lemma pause_and_resume_witness :
  handleToggle
    (Nat.iter 7 elapseSecond (handleToggle (Battery.mk true false 40 40))) =
    Battery.mk true false 40 40.
Proof.
  apply (pause_and_resume 7 (Battery.mk true false 40 40)). reflexivity.
Defined.

(** X11: a reachable conducting battery of level [h] has, after [n]
    firings of the interval, the level and ion count [max 0 (h - 5 n)]; it
    is exhausted exactly from the firing that brings the level to 0, that is
    after [h / 5] seconds, and keeps its switch pressed. *)
Theorem depletion_from_any_level (n : nat) (b : Battery.t) :
  reachable b -> conducting b = true ->
  Nat.iter n elapseSecond b =
    Battery.mk true
      (Battery.electrolyteH b - 5 * Z.of_nat n <=? 0)%Z
      (Z.max 0 (Battery.electrolyteH b - 5 * Z.of_nat n))
      (Z.max 0 (Battery.electrolyteH b - 5 * Z.of_nat n)).
Proof.
  intros R C. pose proof (reachable_is_sound b R) as S.
  pose proof (conducting_has_charge b S C) as P.
  destruct S as (_ & _ & _ & I). unfold conducting in C. apply andb_true_iff in C.
  destruct C as [O D]. apply negb_true_iff in D.
  destruct b as [o d h i].
  cbn [Battery.isOpen Battery.isDepleted Battery.electrolyteH
       Battery.ionsCount] in *.
  subst o d i.
  induction n as [| n IH].
  - change (Nat.iter 0 elapseSecond ?x) with x.
    change (Z.of_nat 0) with 0%Z.
    replace (h - 5 * 0)%Z with h by lia.
    replace (h <=? 0)%Z with false by (symmetry; apply Z.leb_gt; lia).
    f_equal; lia.
  - rewrite Nat.iter_succ, IH. unfold elapseSecond, conducting.
    cbn [Battery.isOpen Battery.isDepleted andb].
    destruct (Z.leb_spec (h - 5 * Z.of_nat n) 0) as [L | L];
      cbn [negb].
    + replace (h - 5 * Z.of_nat (S n) <=? 0)%Z with true
        by (symmetry; apply Z.leb_le; lia).
      f_equal; lia.
    + unfold depletionTick, ELECTROLYTE_DEPLETION_RATE, IONS_DEPLETION_RATE.
      cbn [Battery.isOpen Battery.isDepleted Battery.electrolyteH
           Battery.ionsCount].
      replace (Z.max 0 (Z.max 0 (h - 5 * Z.of_nat n) - 5))
        with (Z.max 0 (h - 5 * Z.of_nat (S n))) by lia.
      destruct (Z.leb_spec (h - 5 * Z.of_nat (S n)) 0) as [L' | L'].
      * replace (Z.max 0 (h - 5 * Z.of_nat (S n)) =? 0)%Z with true
          by (symmetry; apply Z.eqb_eq; lia).
        reflexivity.
      * replace (Z.max 0 (h - 5 * Z.of_nat (S n)) =? 0)%Z with false
          by (symmetry; apply Z.eqb_neq; lia).
        reflexivity.
Qed.

Lemma depletion_from_any_level_witness :
  Nat.iter 3 elapseSecond (handleToggle initialBattery) =
    Battery.mk true false 60 60.
Proof.
  apply (depletion_from_any_level 3 (handleToggle initialBattery)).
  - eapply reachable_step; [ apply reachable_initial | apply step_toggle ].
  - reflexivity.
Defined.



(** ** The component as a whole *)

Lemma handle_electrons_static (c : Circuit.t) (ev : Event) :
  map Electron.id (Circuit.electrons (handle c ev)) =
    map Electron.id (Circuit.electrons c) /\
  map Electron.transPos (Circuit.electrons (handle c ev)) =
    map Electron.transPos (Circuit.electrons c) /\
  map Electron.vibeDelay (Circuit.electrons (handle c ev)) =
    map Electron.vibeDelay (Circuit.electrons c) /\
  map Electron.vibeDuration (Circuit.electrons (handle c ev)) =
    map Electron.vibeDuration (Circuit.electrons c).
Proof.
  destruct ev as [t | | | id rx ry now | id]; cbn [handle];
    try (repeat split; reflexivity).
  - unfold animate. cbn [Circuit.electrons].
    destruct (conducting (Circuit.battery c));
      [ rewrite !map_map; repeat split; reflexivity
      | repeat split; reflexivity ].
  - destruct (conducting (Circuit.battery c)); repeat split; reflexivity.
Qed.

Lemma events_keep_static (evs : list Event) (c : Circuit.t) :
  let c' := fold_left handle evs c in
  length (Circuit.electrons c') = length (Circuit.electrons c) /\
  map Electron.id (Circuit.electrons c') =
    map Electron.id (Circuit.electrons c) /\
  map Electron.transPos (Circuit.electrons c') =
    map Electron.transPos (Circuit.electrons c) /\
  map Electron.vibeDelay (Circuit.electrons c') =
    map Electron.vibeDelay (Circuit.electrons c) /\
  map Electron.vibeDuration (Circuit.electrons c') =
    map Electron.vibeDuration (Circuit.electrons c).
Proof.
  cbv zeta.
  assert (map Electron.id (Circuit.electrons (fold_left handle evs c)) =
            map Electron.id (Circuit.electrons c) /\
          map Electron.transPos (Circuit.electrons (fold_left handle evs c)) =
            map Electron.transPos (Circuit.electrons c) /\
          map Electron.vibeDelay (Circuit.electrons (fold_left handle evs c)) =
            map Electron.vibeDelay (Circuit.electrons c) /\
          map Electron.vibeDuration
            (Circuit.electrons (fold_left handle evs c)) =
            map Electron.vibeDuration (Circuit.electrons c)) as H.
  { revert c. induction evs as [| ev evs IH]; intros c.
    - repeat split.
    - cbn [fold_left].
      destruct (IH (handle c ev)) as (A & B & C' & D).
      destruct (handle_electrons_static c ev) as (A' & B' & C'' & D').
      repeat split; congruence. }
  split; [ | exact H ].
  destruct H as (A & _).
  rewrite <- (length_map Electron.id), A. apply length_map.
Qed.

(** X13: no sequence of frames, clicks and timer firings, whatever the
    timestamps, adds, removes, reorders or relabels an electron: the ids,
    the lateral offsets and the two vibration parameters stay, in order,
    those of the start. *)
Theorem electrons_keep_identity (evs : list Event) (c : Circuit.t) :
  let c' := fold_left handle evs c in
  length (Circuit.electrons c') = length (Circuit.electrons c) /\
  map Electron.id (Circuit.electrons c') =
    map Electron.id (Circuit.electrons c) /\
  map Electron.transPos (Circuit.electrons c') =
    map Electron.transPos (Circuit.electrons c) /\
  map Electron.vibeDelay (Circuit.electrons c') =
    map Electron.vibeDelay (Circuit.electrons c) /\
  map Electron.vibeDuration (Circuit.electrons c') =
    map Electron.vibeDuration (Circuit.electrons c).
Proof. exact (events_keep_static evs c). Qed.

(** The events [evs] after a circuit whose electrons have already been
    carried [s0] seconds from [es0]. *)
Lemma handle_events (evs : list Event) :
  forall (c : Circuit.t) (s0 : Q) (es0 : list Electron.t),
    Forall2 (moved s0) es0 (Circuit.electrons c) ->
    clockOrdered (refNumber (Circuit.lastTimeRef c)) evs ->
    Forall2
      (moved (s0 + conductingSeconds (Circuit.battery c)
                     (refNumber (Circuit.lastTimeRef c)) evs))
      es0 (Circuit.electrons (fold_left handle evs c)).
Proof.
  induction evs as [| ev evs IH]; intros c s0 es0 M O.
  - cbn [fold_left conductingSeconds].
    eapply Forall2_impl; [ | exact M ].
    intros e e'. apply moved_seconds. lra.
  - destruct ev as [t | | | id rx ry now | id];
      cbn [fold_left conductingSeconds clockOrdered] in *.
    + destruct O as [O0 O].
      set (t0 := refNumber (Circuit.lastTimeRef c)) in *.
      pose proof (thousandth (t - t0)) as D.
      set (d := (t - t0) / 1000) in *.
      assert (Forall2
                (moved (s0 + (if conducting (Circuit.battery c)
                              then d else 0)))
                es0 (Circuit.electrons (animate c t))) as M1.
      { destruct (conducting (Circuit.battery c)) eqn:C.
        - rewrite animate_conducting by assumption. fold t0 d.
          clearbody d t0. clear - M D O0.
          induction M as [| e e' es es' M0 M IHM]; [ constructor | ].
          cbn [map]. constructor; [ | exact IHM ].
          apply moved_advance; [ lra | exact M0 ].
        - rewrite animate_idle by assumption.
          eapply Forall2_impl; [ | exact M ].
          intros e e'. apply moved_seconds. lra. }
      specialize (IH (animate c t) _ es0 M1 O).
      cbn [animate Circuit.battery Circuit.lastTimeRef refNumber] in IH.
      eapply Forall2_impl; [ | exact IH ].
      intros e e'. apply moved_seconds. lra.
    + exact (IH (handle c Click) s0 es0 M O).
    + exact (IH (handle c Second) s0 es0 M O).
    + assert (Circuit.electrons (handle c (Spawn id rx ry now)) =
                Circuit.electrons c /\
              Circuit.battery (handle c (Spawn id rx ry now)) =
                Circuit.battery c /\
              Circuit.lastTimeRef (handle c (Spawn id rx ry now)) =
                Circuit.lastTimeRef c) as (E1 & E2 & E3)
        by (cbn [handle]; destruct (conducting (Circuit.battery c));
            repeat split).
      rewrite <- E1 in M. rewrite <- E3 in O.
      specialize (IH _ s0 es0 M O). now rewrite E2, E3 in IH.
    + exact (IH (handle c (Expire id)) s0 es0 M O).
Qed.

Lemma events_move_electrons (evs : list Event) (c : Circuit.t) :
  Forall onTrack (Circuit.electrons c) ->
  clockOrdered (refNumber (Circuit.lastTimeRef c)) evs ->
  Forall2
    (moved (conductingSeconds (Circuit.battery c)
              (refNumber (Circuit.lastTimeRef c)) evs))
    (Circuit.electrons c) (Circuit.electrons (fold_left handle evs c)) /\
  Forall onTrack (Circuit.electrons (fold_left handle evs c)).
Proof.
  intros T O.
  assert (Forall2 (moved 0) (Circuit.electrons c) (Circuit.electrons c)) as M.
  { clear - T. induction T as [| e es T0 T IH]; constructor; trivial.
    now apply moved_zero. }
  pose proof (handle_events evs c 0 (Circuit.electrons c) M O) as R.
  assert (Forall2
            (moved (conductingSeconds (Circuit.battery c)
                      (refNumber (Circuit.lastTimeRef c)) evs))
            (Circuit.electrons c)
            (Circuit.electrons (fold_left handle evs c))) as R'.
  { eapply Forall2_impl; [ | exact R ].
    intros e e'. apply moved_seconds. lra. }
  split; [ exact R' | ].
  clear - R'. induction R' as [| e e' es es' M0 M IH]; constructor; trivial.
  destruct M0 as [E _]. unfold onTrack, RAIL_TOTAL_LENGTH. rewrite E.
  apply wrap_range.
Qed.

(** X14: over any sequence of frames, clicks and timer firings whose frame
    timestamps do not go back, every electron that starts on the loop ends
    [20 * s] units further along it (modulo 2040), where [s] is the time
    covered by the frames drawn while the battery conducts: the time spent
    with the circuit open or the battery exhausted moves nothing, and no
    electron ever leaves [[0, 2040)]. *)
Theorem electrons_travel_while_conducting
  (evs : list Event) (c : Circuit.t) :
  Forall onTrack (Circuit.electrons c) ->
  clockOrdered (refNumber (Circuit.lastTimeRef c)) evs ->
  Forall2
    (carried (conductingSeconds (Circuit.battery c)
                (refNumber (Circuit.lastTimeRef c)) evs))
    (Circuit.electrons c) (Circuit.electrons (fold_left handle evs c)) /\
  Forall (fun e => 0 <= Electron.trackPos e /\ Electron.trackPos e < 2040)
    (Circuit.electrons (fold_left handle evs c)).
Proof.
  intros T O. destruct (events_move_electrons evs c T O) as [M R].
  split; [ | exact R ].
  eapply Forall2_impl; [ | exact M ]. intros e e'. apply moved_carried.
Qed.

Lemma electrons_travel_while_conducting_witness :
  Forall2
    (carried (conductingSeconds (Circuit.battery sampleOpenCircuit)
                (refNumber (Circuit.lastTimeRef sampleOpenCircuit))
                sampleEvents))
    (Circuit.electrons sampleOpenCircuit)
    (Circuit.electrons (fold_left handle sampleEvents sampleOpenCircuit)).
Proof.
  apply (electrons_travel_while_conducting sampleEvents sampleOpenCircuit).
  - repeat constructor; simpl; discriminate.
  - simpl. repeat split; discriminate.
Defined.

Lemma initialElectrons_ids (random : nat -> Q) :
  map Electron.id (initialElectrons random) =
    map Z.of_nat (seq 0 NUM_ELECTRONS).
Proof.
  unfold initialElectrons. rewrite map_map. apply map_ext. reflexivity.
Qed.

Lemma initialElectrons_ranges (random : nat -> Q) :
  (forall n : nat, 0 <= random n /\ random n < 1) ->
  Forall (fun e => onTrack e /\
                   -7.5 <= Electron.transPos e /\ Electron.transPos e < 7.5 /\
                   -2 < Electron.vibeDelay e /\ Electron.vibeDelay e <= 0 /\
                   0.3 <= Electron.vibeDuration e /\
                   Electron.vibeDuration e < 0.7)
    (initialElectrons random).
Proof.
  intros R. unfold initialElectrons. apply Forall_map, Forall_forall.
  intros i _.
  destruct (R (4 * i)%nat) as [A0 A1]. destruct (R (4 * i + 1)%nat) as [B0 B1].
  destruct (R (4 * i + 2)%nat) as [C0 C1].
  destruct (R (4 * i + 3)%nat) as [D0 D1].
  split; [ now apply newElectron_onTrack | ].
  unfold newElectron.
  cbn [Electron.transPos Electron.vibeDelay Electron.vibeDuration].
  repeat split; lra.
Qed.

(** X15: from the mounted component, with [Math.random()] in [[0, 1)], and
    over any sequence of frames (timestamps not going back from 0), clicks and
    timer firings, there are always 1000 electrons with the keys 0 to 999
    in order, each with its track position in [[0, 2040)] and drawn, if at
    all, inside the 650 by 400 frame of the conductor. *)
Theorem mounted_electrons_stay_in_frame
  (random : nat -> Q) (evs : list Event) :
  (forall n : nat, 0 <= random n /\ random n < 1) ->
  clockOrdered 0 evs ->
  let c' := fold_left handle evs (initialCircuit random) in
  length (Circuit.electrons c') = 1000%nat /\
  map Electron.id (Circuit.electrons c') = map Z.of_nat (seq 0 1000) /\
  Forall
    (fun e =>
       (0 <= Electron.trackPos e /\ Electron.trackPos e < 2040) /\
       0 <= Point.x (getXY (Electron.trackPos e) (Electron.transPos e)) /\
       Point.x (getXY (Electron.trackPos e) (Electron.transPos e)) <= 650 /\
       0 <= Point.y (getXY (Electron.trackPos e) (Electron.transPos e)) /\
       Point.y (getXY (Electron.trackPos e) (Electron.transPos e)) <= 400)
    (Circuit.electrons c').
Proof.
  intros R O c'. subst c'.
  pose proof (initialElectrons_ranges random R) as I.
  destruct (events_keep_static evs (initialCircuit random))
    as (L & Ids & Tr & _).
  cbv zeta in L, Ids, Tr. cbn [initialCircuit Circuit.electrons] in L, Ids, Tr.
  destruct (events_move_electrons evs (initialCircuit random)) as [_ T].
  { cbn [initialCircuit Circuit.electrons].
    eapply Forall_impl; [ | exact I ]. now intros e [H _]. }
  { exact O. }
  split; [ | split ].
  - rewrite L. unfold initialElectrons. now rewrite length_map, length_seq.
  - rewrite Ids. apply initialElectrons_ids.
  - assert (Forall (fun t => -7.5 <= t /\ t <= 7.5)
              (map Electron.transPos
                 (Circuit.electrons
                    (fold_left handle evs (initialCircuit random))))) as B.
    { rewrite Tr. apply Forall_map. eapply Forall_impl; [ | exact I ].
      intros e (_ & A & B & _). split; lra. }
    apply Forall_map in B. rewrite Forall_forall in T, B.
    apply Forall_forall. intros e In.
    destruct (B e In) as [Lo Hi].
    destruct (getXY_in_band (Electron.trackPos e) (Electron.transPos e) Lo Hi)
      as (X0 & X1 & Y0 & Y1 & _).
    repeat split; trivial; now apply T.
Qed.

Lemma mounted_electrons_stay_in_frame_witness :
  length
    (Circuit.electrons
       (fold_left handle sampleEvents (initialCircuit (fun _ => 0.5)))) =
    1000%nat.
Proof.
  apply (mounted_electrons_stay_in_frame (fun _ => 0.5) sampleEvents).
  - intros n. split; [ discriminate | reflexivity ].
  - simpl. repeat split; discriminate.
Defined.

(** ** The pool of released electrons *)

Lemma removeBatElectron_app (id : Q) (l1 l2 : list BatElectron.t) :
  removeBatElectron id (l1 ++ l2) =
    removeBatElectron id l1 ++ removeBatElectron id l2.
Proof. unfold removeBatElectron. apply filter_app. Qed.

Lemma removeBatElectron_fresh (id : Q) (pool : list BatElectron.t) :
  Forall (fun e => ~ BatElectron.id e == id) pool ->
  removeBatElectron id pool = pool.
Proof.
  induction 1 as [| e pool F _ IH]; [ reflexivity | ].
  unfold removeBatElectron in *. cbn [filter].
  destruct (Qeq_bool (BatElectron.id e) id) eqn:E.
  - apply Qeq_bool_iff in E. contradiction.
  - cbn [negb]. now rewrite IH.
Qed.

(** X16: the timeout of an entry undoes its release: removing the id just
    released gives the pool without any entry of that id, which is the
    pool as it was when the id was new; the removal of another id leaves
    the new entry in place at the end of the pool; and after a removal no
    entry of that id is left, even if several had it. *)
Theorem release_then_remove (id rx ry now : Q) (prev : list BatElectron.t) :
  removeBatElectron id (spawnBatElectron id rx ry now prev) =
    removeBatElectron id prev /\
  (Forall (fun e => ~ BatElectron.id e == id) prev ->
   removeBatElectron id (spawnBatElectron id rx ry now prev) = prev) /\
  (forall id' : Q,
     ~ id == id' ->
     removeBatElectron id' (spawnBatElectron id rx ry now prev) =
       spawnBatElectron id rx ry now (removeBatElectron id' prev)) /\
  Forall (fun e => ~ BatElectron.id e == id)
    (removeBatElectron id (spawnBatElectron id rx ry now prev)).
Proof.
  assert (removeBatElectron id (spawnBatElectron id rx ry now prev) =
            removeBatElectron id prev) as E.
  { unfold spawnBatElectron. rewrite removeBatElectron_app.
    unfold removeBatElectron at 2. cbn [filter BatElectron.id].
    rewrite (Qeq_bool_refl id). cbn [negb]. apply app_nil_r. }
  split; [ exact E | ]. split; [ | split ].
  - intros F. rewrite E. now apply removeBatElectron_fresh.
  - intros id' N. unfold spawnBatElectron. rewrite removeBatElectron_app.
    unfold removeBatElectron at 2. cbn [filter BatElectron.id].
    destruct (Qeq_bool id id') eqn:B; [ | reflexivity ].
    apply Qeq_bool_iff in B. contradiction.
  - apply removeBatElectron_gone.
Qed.

(** X17: an electron released with [Math.random()] in [[0, 1)] starts inside
    the copper third of the battery, and while it is drawn within the 1000
    ms after its release it stays inside that panel (50 by 75), with an
    opacity between 0 and 1; it starts at its release point fully opaque and
    ends at the point (50, 37.5) fully transparent. *)
Theorem released_electron_stays_in_panel
  (id rx ry t0 now : Q) (prev : list BatElectron.t) :
  0 <= rx -> rx < 1 -> 0 <= ry -> ry < 1 ->
  t0 <= now -> now <= t0 + 1000 ->
  let be := last (spawnBatElectron id rx ry t0 prev)
              (BatElectron.mk 0 0 0 0) in
  inReleaseRegion be /\
  0 <= Style.left (renderBatElectron now be) /\
  Style.left (renderBatElectron now be) <= 50 /\
  0 <= Style.top (renderBatElectron now be) /\
  Style.top (renderBatElectron now be) <= 75 /\
  0 <= Style.opacity (renderBatElectron now be) /\
  Style.opacity (renderBatElectron now be) <= 1 /\
  (Style.left (renderBatElectron t0 be) == BatElectron.x be - 350 /\
   Style.top (renderBatElectron t0 be) == BatElectron.y be /\
   Style.opacity (renderBatElectron t0 be) == 1) /\
  (Style.left (renderBatElectron (t0 + 1000) be) == 50 /\
   Style.top (renderBatElectron (t0 + 1000) be) == 37.5 /\
   Style.opacity (renderBatElectron (t0 + 1000) be) == 0).
Proof.
  intros X0 X1 Y0 Y1 N0 N1 be. subst be.
  unfold spawnBatElectron. rewrite last_last.
  unfold inReleaseRegion, renderBatElectron, progress.
  cbn [BatElectron.x BatElectron.y BatElectron.start Style.left Style.top
       Style.opacity].
  pose proof (thousandth (now - t0)) as D.
  pose proof (thousandth (t0 - t0)) as D0.
  pose proof (thousandth (t0 + 1000 - t0)) as D1.
  set (g := (now - t0) / 1000) in *.
  set (g0 := (t0 - t0) / 1000) in *.
  set (g1 := (t0 + 1000 - t0) / 1000) in *.
  clearbody g g0 g1.
  assert (g0 == 0) as -> by lra. assert (g1 == 1) as -> by lra.
  assert (0 <= g) by lra. assert (g <= 1) by lra.
  repeat split; try lra; nra.
Qed.

Lemma released_electron_stays_in_panel_witness :
  0 <= Style.opacity
         (renderBatElectron 700
            (last (spawnBatElectron 0.5 0.2 0.4 0 [])
               (BatElectron.mk 0 0 0 0))).
Proof.
  apply (released_electron_stays_in_panel 0.5 0.2 0.4 0 700 []);
    vm_compute; first [ reflexivity | discriminate ].
Defined.

Lemma handle_battery_reachable (c : Circuit.t) (ev : Event) :
  reachable (Circuit.battery c) -> reachable (Circuit.battery (handle c ev)).
Proof.
  intros R. destruct ev as [t | | | id rx ry now | id]; cbn [handle]; trivial.
  - eapply reachable_step; [ exact R | apply step_toggle ].
  - cbn [withBattery Circuit.battery]. unfold elapseSecond.
    destruct (conducting (Circuit.battery c)) eqn:C; [ | exact R ].
    eapply reachable_step; [ exact R | now apply step_tick ].
  - now destruct (conducting (Circuit.battery c)).
Qed.

Lemma handle_pool_region (c : Circuit.t) (ev : Event) :
  drawsInUnit ev ->
  Forall inReleaseRegion (Circuit.batElectrons c) ->
  Forall inReleaseRegion (Circuit.batElectrons (handle c ev)).
Proof.
  intros D F. destruct ev as [t | | | id rx ry now | id]; cbn [handle];
    trivial.
  - destruct (conducting (Circuit.battery c)); [ | exact F ].
    cbn [withBatElectrons Circuit.batElectrons]. unfold spawnBatElectron.
    apply Forall_app. split; [ exact F | ].
    constructor; [ | constructor ].
    destruct D as (X0 & X1 & Y0 & Y1). unfold inReleaseRegion.
    cbn [BatElectron.x BatElectron.y]. repeat split; lra.
  - cbn [withBatElectrons Circuit.batElectrons]. unfold removeBatElectron.
    rewrite Forall_forall in *. intros e In. apply filter_In in In.
    apply F. tauto.
Qed.

Lemma handle_pool_idle (c : Circuit.t) (ev : Event) :
  conducting (Circuit.battery c) = false ->
  (length (Circuit.batElectrons (handle c ev))
   <= length (Circuit.batElectrons c))%nat.
Proof.
  intros C. destruct ev as [t | | | id rx ry now | id]; cbn [handle];
    try apply Nat.le_refl.
  - rewrite C. apply Nat.le_refl.
  - cbn [withBatElectrons Circuit.batElectrons]. unfold removeBatElectron.
    apply filter_length_le.
Qed.

(** X18: from the mounted component and over any sequence of events, the
    battery is in a state the battery alone can reach (so all that holds of
    reachable batteries holds of the component), every released electron in
    the pool lies in the release region of the copper panel, and an event
    that finds the battery not conducting never adds to the pool. *)
Theorem component_pool_and_battery
  (random : nat -> Q) (evs : list Event) (ev : Event) :
  Forall drawsInUnit evs ->
  let c := fold_left handle evs (initialCircuit random) in
  reachable (Circuit.battery c) /\
  Forall inReleaseRegion (Circuit.batElectrons c) /\
  (conducting (Circuit.battery c) = false ->
   (length (Circuit.batElectrons (handle c ev))
    <= length (Circuit.batElectrons c))%nat).
Proof.
  intros D c. subst c.
  assert (forall c0 : Circuit.t,
            reachable (Circuit.battery c0) ->
            Forall inReleaseRegion (Circuit.batElectrons c0) ->
            reachable (Circuit.battery (fold_left handle evs c0)) /\
            Forall inReleaseRegion
              (Circuit.batElectrons (fold_left handle evs c0))) as G.
  { induction D as [| e evs D0 D IH]; intros c0 R F; [ now split | ].
    cbn [fold_left]. apply IH.
    - now apply handle_battery_reachable.
    - now apply handle_pool_region. }
  destruct (G (initialCircuit random)) as [R F].
  - apply reachable_initial.
  - constructor.
  - split; [ exact R | ]. split; [ exact F | ]. apply handle_pool_idle.
Qed.

Lemma component_pool_and_battery_witness :
  reachable
    (Circuit.battery
       (fold_left handle
          [Click; Spawn 0.5 0.2 0.4 200; Second; Expire 0.5]
          (initialCircuit (fun _ => 0.5)))).
Proof.
  apply (component_pool_and_battery (fun _ => 0.5)
           [Click; Spawn 0.5 0.2 0.4 200; Second; Expire 0.5] Click).
  repeat constructor; vm_compute; discriminate.
Defined.

(** X19: a click on the button always changes the battery state, and it
    makes the battery conduct exactly when the switch was released and the
    battery not exhausted; in particular the click that recharges an
    exhausted battery leaves the circuit open. *)
Theorem click_effects (b : Battery.t) :
  handleToggle b <> b /\
  (conducting (handleToggle b) = true <->
   Battery.isOpen b = false /\ Battery.isDepleted b = false) /\
  Battery.electrolyteH (handleToggle b) =
    (if Battery.isDepleted b then 75%Z else Battery.electrolyteH b) /\
  Battery.ionsCount (handleToggle b) =
    (if Battery.isDepleted b then 75%Z else Battery.ionsCount b).
Proof.
  destruct b as [o d h i]. unfold handleToggle, conducting.
  cbn [Battery.isOpen Battery.isDepleted Battery.electrolyteH
       Battery.ionsCount].
  destruct d, o; cbn; repeat split; try discriminate; try tauto;
    intros [H1 H2]; discriminate.
Qed.

(** ** The tutor panel *)

Lemma alternates_snoc (ms : list Message.t) (m : Message.t) :
  forall r : Role,
    alternates r ms ->
    Message.role m = (if Nat.even (length ms) then r else otherRole r) ->
    alternates r (ms ++ [m]).
Proof.
  induction ms as [| a ms IH]; intros r A R.
  - simpl. now split.
  - destruct A as [A0 A]. cbn [app alternates]. split; [ exact A0 | ].
    apply IH; [ exact A | ]. rewrite R.
    cbn [length]. rewrite Nat.even_succ, <- Nat.negb_even.
    destruct (Nat.even (length ms)), r; reflexivity.
Qed.

Lemma alternates_last (ms : list Message.t) (dflt : Message.t) :
  forall r : Role,
    alternates r ms -> ms <> [] ->
    Message.role (last ms dflt) =
      (if Nat.even (length ms) then otherRole r else r).
Proof.
  induction ms as [| a ms IH]; intros r A N; [ congruence | ].
  destruct A as [A0 A]. destruct ms as [| b ms].
  - exact A0.
  - change (last (a :: b :: ms) dflt) with (last (b :: ms) dflt).
    rewrite (IH (otherRole r) A) by discriminate.
    change (length (a :: b :: ms)) with (S (length (b :: ms))).
    rewrite Nat.even_succ, <- Nat.negb_even.
    destruct (Nat.even (length (b :: ms))), r; reflexivity.
Qed.

Lemma hd_error_app {A : Type} (l l' : list A) (a : A) :
  hd_error l = Some a -> hd_error (l ++ l') = Some a.
Proof. destruct l; simpl; congruence. Qed.

Section TutorFacts.

Variable trim : string -> string.

Lemma handleSendStart_some (d d' : Docent.t) (req : Request.t) :
  handleSendStart trim d = Some (d', req) ->
  trim (Docent.inputValue d) <> EmptyString /\
  Docent.isLoading d = false /\
  d' = Docent.mk
         (Docent.messages d ++ [Message.mk user (trim (Docent.inputValue d))])
         EmptyString (Docent.isPart2 d) true /\
  req = Request.mk
          (Docent.messages d
           ++ [Message.mk user (trim (Docent.inputValue d))])
          (Docent.isPart2 d).
Proof.
  unfold handleSendStart.
  destruct (String.eqb_spec (trim (Docent.inputValue d)) EmptyString)
    as [E | E]; [ discriminate | ].
  destruct (Docent.isLoading d); [ discriminate | ].
  cbn [orb]. intros H. injection H as <- <-. repeat split. exact E.
Qed.

Lemma handleSendFinish_fields (req : Request.t) (r : Reply) (d : Docent.t) :
  Docent.messages (handleSendFinish req r d) =
    Request.contents req ++ [Message.mk model (replyText r)] /\
  Docent.inputValue (handleSendFinish req r d) = Docent.inputValue d /\
  Docent.isLoading (handleSendFinish req r d) = false /\
  Docent.isPart2 (handleSendFinish req r d) =
    (if replyAllFacts r && negb (Request.isPart2 req)
     then true else Docent.isPart2 d).
Proof. destruct r as [t a g |]; repeat split. Qed.

Lemma tutorStep_sound (st : Docent.t * option Request.t) (ev : TutorEvent) :
  tutorSound st -> tutorSound (tutorStep trim st ev).
Proof.
  destruct st as [d pending]. intros (A & H & P & F & Q).
  cbn [fst snd] in *. destruct ev as [s | | r]; cbn [tutorStep fst snd].
  - repeat split; trivial.
  - destruct (handleSendStart trim d) as [[d' req] |] eqn:E;
      [ | repeat split; trivial ].
    apply handleSendStart_some in E. destruct E as (N & L & -> & ->).
    unfold tutorSound.
    cbn [fst snd Docent.messages Docent.isLoading Docent.isPart2
         Request.contents Request.isPart2].
    rewrite L in P. repeat split.
    + apply alternates_snoc; [ exact A | ]. now rewrite P.
    + now apply hd_error_app.
    + rewrite length_app. cbn [length]. rewrite Nat.add_1_r.
      now rewrite Nat.even_succ, <- Nat.negb_even, P.
    + apply Forall_app. split; [ exact F | ].
      constructor; [ | constructor ]. intros _. exact N.
  - destruct pending as [req |]; [ | repeat split; trivial ].
    destruct Q as (L & C & I).
    destruct (handleSendFinish_fields req r d) as (M & _ & L' & _).
    unfold tutorSound. cbn [fst snd]. rewrite M, L', C.
    rewrite L in P. repeat split.
    + apply alternates_snoc; [ exact A | ]. now rewrite P.
    + now apply hd_error_app.
    + rewrite length_app. cbn [length]. rewrite Nat.add_1_r.
      now rewrite Nat.even_succ, <- Nat.negb_even, P.
    + apply Forall_app. split; [ exact F | ].
      constructor; [ | constructor ]. intros U. discriminate U.
Qed.

Lemma tutorRun_from_sound (evs : list TutorEvent) :
  forall st : Docent.t * option Request.t,
    tutorSound st -> tutorSound (fold_left (tutorStep trim) evs st).
Proof.
  induction evs as [| ev evs IH]; intros st S; [ exact S | ].
  cbn [fold_left]. apply IH. now apply tutorStep_sound.
Qed.

Lemma initial_tutorSound : tutorSound (initialDocent, None).
Proof.
  repeat split; cbn; trivial.
  constructor; [ | constructor ]. intros U. discriminate U.
Qed.

Lemma tutorRun_sound (evs : list TutorEvent) : tutorSound (tutorRun trim evs).
Proof. apply tutorRun_from_sound, initial_tutorSound. Qed.

Lemma tutorStep_extends (st : Docent.t * option Request.t) (ev : TutorEvent) :
  tutorSound st ->
  (exists more : list Message.t,
     Docent.messages (fst (tutorStep trim st ev)) =
       Docent.messages (fst st) ++ more) /\
  (Docent.isPart2 (fst st) = true ->
   Docent.isPart2 (fst (tutorStep trim st ev)) = true).
Proof.
  destruct st as [d pending]. intros (_ & _ & _ & _ & Q).
  cbn [fst snd] in *. destruct ev as [s | | r]; cbn [tutorStep fst snd].
  - split; [ exists []; now rewrite app_nil_r | trivial ].
  - destruct (handleSendStart trim d) as [[d' req] |] eqn:E.
    + apply handleSendStart_some in E. destruct E as (_ & _ & -> & _).
      cbn [fst Docent.messages Docent.isPart2].
      split; [ eexists; reflexivity | trivial ].
    + split; [ exists []; now rewrite app_nil_r | trivial ].
  - destruct pending as [req |].
    + destruct Q as (_ & C & _).
      destruct (handleSendFinish_fields req r d) as (M & _ & _ & P).
      cbn [fst]. rewrite M, P, C.
      split; [ eexists; reflexivity | ].
      intros ->. now destruct (replyAllFacts r && negb (Request.isPart2 req)).
    + split; [ exists []; now rewrite app_nil_r | trivial ].
Qed.

Lemma tutorRun_extends (evs : list TutorEvent) :
  forall st : Docent.t * option Request.t,
    tutorSound st ->
    (exists more : list Message.t,
       Docent.messages (fst (fold_left (tutorStep trim) evs st)) =
         Docent.messages (fst st) ++ more) /\
    (Docent.isPart2 (fst st) = true ->
     Docent.isPart2 (fst (fold_left (tutorStep trim) evs st)) = true).
Proof.
  induction evs as [| ev evs IH]; intros st S.
  - split; [ exists []; now rewrite app_nil_r | trivial ].
  - cbn [fold_left].
    destruct (tutorStep_extends st ev S) as [[m1 E1] P1].
    destruct (IH _ (tutorStep_sound st ev S)) as [[m2 E2] P2].
    split.
    + exists (m1 ++ m2). now rewrite E2, E1, app_assoc.
    + intros H. apply P2, P1, H.
Qed.

(** X20: [handleSend] returns without doing anything exactly when the
    trimmed input is empty or a request is already in flight; pressing
    Enter then leaves the panel, and the request in flight, as they are. *)
Theorem handleSend_guard
  (d : Docent.t) (pending : option Request.t) :
  (handleSendStart trim d = None <->
   trim (Docent.inputValue d) = EmptyString \/ Docent.isLoading d = true) /\
  (tutorStep trim (d, pending) Enter = (d, pending) <->
   trim (Docent.inputValue d) = EmptyString \/ Docent.isLoading d = true).
Proof.
  assert (handleSendStart trim d = None <->
          trim (Docent.inputValue d) = EmptyString \/
          Docent.isLoading d = true) as G.
  { unfold handleSendStart.
    destruct (String.eqb_spec (trim (Docent.inputValue d)) EmptyString)
      as [E | E]; cbn [orb].
    - split; [ now left | reflexivity ].
    - destruct (Docent.isLoading d).
      + split; [ now right | reflexivity ].
      + split; [ discriminate | intros [H | H]; congruence ]. }
  split; [ exact G | ]. rewrite <- G. cbn [tutorStep fst].
  destruct (handleSendStart trim d) as [[d' req] |] eqn:E.
  - split; [ | discriminate ]. intros H. exfalso.
    apply handleSendStart_some in E. destruct E as (_ & L & -> & _).
    injection H as H _. rewrite <- H in L. discriminate L.
  - split; reflexivity.
Qed.

(** X21: at any moment the transcript opens with the greeting of the tutor
    and alternates between the tutor and the student; its last message is
    the student's exactly while a request is in flight; no message of the
    student is empty; and the request in flight, if any, carries the
    transcript and the part shown. *)
Theorem transcript_alternates (evs : list TutorEvent) :
  let d := fst (tutorRun trim evs) in
  let pending := snd (tutorRun trim evs) in
  alternates model (Docent.messages d) /\
  hd_error (Docent.messages d) = Some (Message.mk model greeting) /\
  Message.role (last (Docent.messages d) (Message.mk model greeting)) =
    (if Docent.isLoading d then user else model) /\
  Forall (fun m => Message.role m = user -> Message.text m <> EmptyString)
    (Docent.messages d) /\
  (Docent.isLoading d = true <-> pending <> None) /\
  (forall req : Request.t,
     pending = Some req ->
     Request.contents req = Docent.messages d /\
     Request.isPart2 req = Docent.isPart2 d).
Proof.
  intros d pending. subst d pending.
  destruct (tutorRun_sound evs) as (A & H & P & F & Q).
  destruct (tutorRun trim evs) as [d pending]. cbn [fst snd] in *.
  split; [ exact A | ]. split; [ exact H | ].
  split; [ | split; [ exact F | split ] ].
  - rewrite (alternates_last _ _ model A), P.
    + now destruct (Docent.isLoading d).
    + intros E. rewrite E in H. discriminate H.
  - split.
    + intros L. destruct pending; [ discriminate | congruence ].
    + intros N. destruct pending; [ tauto | congruence ].
  - intros req E. rewrite E in Q. tauto.
Qed.

(** X22: the transcript is only ever extended at its end, and once the
    second part of the exercise has been reached it is never left. *)
Theorem transcript_only_grows (evs1 evs2 : list TutorEvent) :
  let d1 := fst (tutorRun trim evs1) in
  let d2 := fst (tutorRun trim (evs1 ++ evs2)) in
  (exists more : list Message.t,
     Docent.messages d2 = Docent.messages d1 ++ more) /\
  (Docent.isPart2 d1 = true -> Docent.isPart2 d2 = true).
Proof.
  cbv zeta. unfold tutorRun. rewrite fold_left_app.
  apply tutorRun_extends. apply tutorRun_sound.
Qed.

(** X23: a message sent from an idle panel, whatever is typed while the
    answer is awaited, ends with the transcript extended by the trimmed
    message and by the answer of the tutor (the connection error when the
    call fails); the text typed meanwhile is kept in the input, the panel is
    idle again, and the second part is entered when the answer says that all
    the facts are identified; the verdict on the explanation changes
    nothing. *)
Theorem send_and_receive (d : Docent.t) (typed : string) (r : Reply) :
  Docent.isLoading d = false ->
  trim (Docent.inputValue d) <> EmptyString ->
  fold_left (tutorStep trim) [Enter; Typed typed; Respond r] (d, None) =
    (Docent.mk
       (Docent.messages d
        ++ [Message.mk user (trim (Docent.inputValue d));
            Message.mk model (replyText r)])
       typed
       (Docent.isPart2 d || replyAllFacts r)
       false,
     None).
Proof.
  intros L N. cbn [fold_left tutorStep fst snd].
  unfold handleSendStart. rewrite L.
  destruct (String.eqb_spec (trim (Docent.inputValue d)) EmptyString)
    as [E | _]; [ contradiction | ].
  cbn [orb fst snd Docent.messages Docent.isPart2 Docent.isLoading].
  destruct r as [t a g |];
    cbn [handleSendFinish Request.contents Request.isPart2 replyText
         replyAllFacts Docent.inputValue Docent.isPart2];
    rewrite <- app_assoc; cbn [app];
    destruct (Docent.isPart2 d); try destruct a; reflexivity.
Qed.

End TutorFacts.

Lemma send_and_receive_witness :
  fold_left (tutorStep trimBlanks)
    [Enter; Typed "ions"%string;
     Respond (Answer "Molt bé."%string true false)]
    (Docent.mk [Message.mk model greeting] "  El LED s'encén  "%string
       false false, None) =
    (Docent.mk
       [Message.mk model greeting;
        Message.mk user "El LED s'encén"%string;
        Message.mk model "Molt bé."%string]
       "ions"%string true false,
     None).
Proof.
  apply (send_and_receive trimBlanks
           (Docent.mk [Message.mk model greeting]
              "  El LED s'encén  "%string false false)
           "ions"%string (Answer "Molt bé."%string true false)).
  - reflexivity.
  - vm_compute. discriminate.
Defined.
